(** * manual_experiment_tracking.py: a shallow embedding

    The script trains a classifier for each value of a fixed list of
    hyperparameters, writes one JSON log and one pickled model per run
    into the directory [experiment_logs], writes a JSON summary of all
    runs, reads the per-run logs back from the directory and plots them.

    The embedding follows the script top to bottom.  The external
    libraries (scikit-learn, numpy's random generator, Python's float
    formatting, the directory listing order of the operating system and
    the plotting back end) are interfaces; the script's own code (the
    record it builds, the paths it formats, the loop, the file filter, the
    key lookups) and Python's [json] text format are definitions. *)

From Stdlib Require Import ZArith QArith Ascii String DecimalString DecimalZ DecimalPos DecimalFacts Lia.
From stdpp Require Import base option list strings gmap.

Local Open Scope string_scope.
Local Open Scope Z_scope.

(** ** Python built-ins used by the script *)

(** [str(i)] for an [int], as used by f-strings and by [json.dump]. *)
Definition str_of_int (z : Z) : string :=
  NilEmpty.string_of_int (Z.to_int z).

(** [int(s)] on the text of a JSON integer. *)
Definition int_of_str (s : string) : Z :=
  match NilEmpty.int_of_string s with
  | Some d => Z.of_int d
  | None => 0
  end.

(** [s.startswith(p)] *)
Definition startswith (s p : string) : bool := String.prefix p s.

(** [s.endswith(p)]: [p] is no longer than [s] and equals its last
    [len(p)] characters. *)
Definition endswith (s p : string) : bool :=
  (String.length p <=? String.length s)%nat
  && String.eqb (String.substring (String.length s - String.length p) (String.length p) s) p.

(** [enumerate(l)] *)
Definition enumerate {A} (l : list A) : list (nat * A) :=
  zip (seq 0 (length l)) l.

(** [sep.join(l)] *)
Fixpoint join (sep : string) (l : list string) : string :=
  match l with
  | [] => ""
  | [s] => s
  | s :: rest => s +:+ sep +:+ join sep rest
  end.

(** ** Exceptions *)

Inductive exn :=
| FileNotFoundError (path : string)
| JSONDecodeError
| KeyError (key : string)
| TypeError
| ValueError
| LibraryError (code : nat).

Inductive result (A : Type) :=
| Ok (a : A)
| Raise (e : exn).
Arguments Ok {A} a.
Arguments Raise {A} e.

(** ** External libraries *)

(** Python's [float]: the values, their [repr] (which [json.dump] and
    f-strings write), [float(s)] on a JSON number literal (which
    [json.load] calls), rounding of an exact rational to the nearest
    float, and the exact value of a float. *)
Class PyFloat := {
  pyfloat : Type;
  float_repr : pyfloat -> string;
  float_of_literal : string -> pyfloat;
  float_of_Q : Q -> pyfloat;
  Q_of_float : pyfloat -> Q
}.

(** scikit-learn and the random generator behind it.  [entropy] is the
    state of the unseeded global generator: every randomized call
    consumes it and returns the next state. *)
Class Sklearn := {
  features : Type;
  label : Type;
  label_eq_dec :: EqDecision label;
  Model : Type;
  entropy : Type;
  load_iris : result (list (features * label));
  train_test_split :
    list (features * label) -> entropy ->
    result (list (features * label) * list (features * label)) * entropy;
  fit : Z -> list (features * label) -> entropy -> result Model * entropy;
  predict : Model -> features -> label
}.

(** ** JSON text, as Python's [json] module writes and reads it *)

Section Json.
Context `{PyFloat}.

(** The Python values that occur in the logs. A [dict] keeps its items in
    insertion order; [JObj] holds them as written, and a lookup takes the
    last item with the key, as the [dict] built by [json.load] does. *)
#[warnings="-register-all"] Inductive json :=
| JNull
| JBool (b : bool)
| JInt (z : Z)
| JFloat (x : pyfloat)
| JStr (s : string)
| JArr (items : list json)
| JObj (members : list (string * json)).

(** String literal: [json.dump] escapes the quote and the backslash.
    (Control and non-ASCII characters, which it writes as other escapes,
    occur in no key of this script.) *)
Fixpoint escape (s : string) : string :=
  match s with
  | EmptyString => EmptyString
  | String c s' =>
      if Ascii.eqb c "034"%char then String "092"%char (String "034"%char (escape s'))
      else if Ascii.eqb c "092"%char then String "092"%char (String "092"%char (escape s'))
      else String c (escape s')
  end.

Definition quote (s : string) : string :=
  String "034"%char (escape s +:+ String "034"%char EmptyString).

(** [json.dumps(v)] with the default separators [", "] and [": "]. *)
Fixpoint dumps (v : json) : string :=
  match v with
  | JNull => "null"
  | JBool true => "true"
  | JBool false => "false"
  | JInt z => str_of_int z
  | JFloat x => float_repr x
  | JStr s => quote s
  | JArr items => "[" +:+ join ", " (map dumps items) +:+ "]"
  | JObj members =>
      "{" +:+ join ", " (map (fun kv => quote (fst kv) +:+ ": " +:+ dumps (snd kv)) members) +:+ "}"
  end.

(** *** The decoder *)

Definition is_ws (c : ascii) : bool :=
  Ascii.eqb c " "%char || Ascii.eqb c "009"%char || Ascii.eqb c "010"%char || Ascii.eqb c "013"%char.

Fixpoint skip_ws (s : string) : string :=
  match s with
  | String c s' => if is_ws c then skip_ws s' else s
  | EmptyString => s
  end.

Definition is_digit (c : ascii) : bool :=
  (48 <=? nat_of_ascii c)%nat && (nat_of_ascii c <=? 57)%nat.

(** The longest prefix of digits, and what follows it. *)
Fixpoint span_digits (s : string) : string * string :=
  match s with
  | String c s' =>
      if is_digit c then let '(ds, r) := span_digits s' in (String c ds, r)
      else (EmptyString, s)
  | EmptyString => (EmptyString, s)
  end.

(** The decoder's number pattern, group by group: an optional minus sign
    and either a single zero or a nonzero digit followed by digits; then
    optionally a dot and one or more digits; then optionally [e] or [E],
    an optional sign and one or more digits. *)
Definition scan_int (s : string) : option (string * string) :=
  let '(sign, s1) :=
    match s with
    | String c t => if Ascii.eqb c "-"%char then ("-", t) else ("", s)
    | EmptyString => ("", s)
    end in
  match s1 with
  | String c t =>
      if Ascii.eqb c "0"%char then Some (sign +:+ "0", t)
      else if is_digit c then
        let '(ds, r) := span_digits t in Some (sign +:+ String c ds, r)
      else None
  | EmptyString => None
  end.

Definition scan_frac (s : string) : string * string :=
  match s with
  | String c t =>
      if Ascii.eqb c "."%char then
        match span_digits t with
        | (EmptyString, _) => (EmptyString, s)
        | (ds, r) => (String c ds, r)
        end
      else (EmptyString, s)
  | EmptyString => (EmptyString, s)
  end.

Definition scan_exp (s : string) : string * string :=
  match s with
  | String c t =>
      if Ascii.eqb c "e"%char || Ascii.eqb c "E"%char then
        let '(sg, t') :=
          match t with
          | String c' u =>
              if Ascii.eqb c' "-"%char || Ascii.eqb c' "+"%char
              then (String c' EmptyString, u) else (EmptyString, t)
          | EmptyString => (EmptyString, t)
          end in
        match span_digits t' with
        | (EmptyString, _) => (EmptyString, s)
        | (ds, r) => (String c (sg +:+ ds), r)
        end
      else (EmptyString, s)
  | EmptyString => (EmptyString, s)
  end.

(** A number: an [int] when neither fraction nor exponent is present,
    a [float] otherwise. *)
Definition scan_number (s : string) : option (json * string) :=
  match scan_int s with
  | None => None
  | Some (i, s1) =>
      let '(f, s2) := scan_frac s1 in
      let '(e, s3) := scan_exp s2 in
      match f, e with
      | EmptyString, EmptyString => Some (JInt (int_of_str i), s3)
      | _, _ => Some (JFloat (float_of_literal (i +:+ f +:+ e)), s3)
      end
  end.

(** A whole string that is a number literal with a fraction or an
    exponent. *)
Definition is_float_literal (s : string) : bool :=
  match scan_int s with
  | None => false
  | Some (i, s1) =>
      let '(f, s2) := scan_frac s1 in
      let '(e, s3) := scan_exp s2 in
      match s3 with
      | EmptyString =>
          match f, e with
          | EmptyString, EmptyString => false
          | _, _ => true
          end
      | _ => false
      end
  end.

(** The body of a string literal, after the opening quote, up to the
    closing quote. The escapes for the quote, the backslash, the slash and
    the five control characters are decoded; a [\u] escape and a raw
    control character are refused. *)
Fixpoint scan_string (s : string) : option (string * string) :=
  match s with
  | EmptyString => None
  | String c t =>
      if Ascii.eqb c "034"%char then Some (EmptyString, t)
      else if Ascii.eqb c "092"%char then
        match t with
        | String e u =>
            let decoded :=
              if Ascii.eqb e "034"%char then Some "034"%char
              else if Ascii.eqb e "092"%char then Some "092"%char
              else if Ascii.eqb e "/"%char then Some "/"%char
              else if Ascii.eqb e "b"%char then Some "008"%char
              else if Ascii.eqb e "f"%char then Some "012"%char
              else if Ascii.eqb e "n"%char then Some "010"%char
              else if Ascii.eqb e "r"%char then Some "013"%char
              else if Ascii.eqb e "t"%char then Some "009"%char
              else None in
            match decoded with
            | Some d =>
                match scan_string u with
                | Some (body, r) => Some (String d body, r)
                | None => None
                end
            | None => None
            end
        | EmptyString => None
        end
      else if (nat_of_ascii c <? 32)%nat then None
      else
        match scan_string t with
        | Some (body, r) => Some (String c body, r)
        | None => None
        end
  end.

(** [scan_once]: one value at the head of the text, and the rest. The
    fuel bounds the nesting and the number of items: every call hands a
    strictly shorter text to the calls it makes. The literals [NaN] and
    [Infinity], which Python also accepts, are refused: the floats of the
    interface are the finite ones. *)
Fixpoint parse_value (fuel : nat) (s : string) : option (json * string) :=
  match fuel with
  | O => None
  | S fuel =>
      match s with
      | String c t =>
          if Ascii.eqb c "034"%char then
            match scan_string t with
            | Some (body, r) => Some (JStr body, r)
            | None => None
            end
          else if Ascii.eqb c "{"%char then
            match skip_ws t with
            | String c' t' =>
                if Ascii.eqb c' "}"%char then Some (JObj [], t')
                else
                  match parse_members fuel (String c' t') with
                  | Some (ms, r) => Some (JObj ms, r)
                  | None => None
                  end
            | EmptyString => None
            end
          else if Ascii.eqb c "["%char then
            match skip_ws t with
            | String c' t' =>
                if Ascii.eqb c' "]"%char then Some (JArr [], t')
                else
                  match parse_items fuel (String c' t') with
                  | Some (vs, r) => Some (JArr vs, r)
                  | None => None
                  end
            | EmptyString => None
            end
          else if startswith s "null" then Some (JNull, String.substring 4 (String.length s - 4) s)
          else if startswith s "true" then Some (JBool true, String.substring 4 (String.length s - 4) s)
          else if startswith s "false" then Some (JBool false, String.substring 5 (String.length s - 5) s)
          else scan_number s
      | EmptyString => None
      end
  end
(** The items of an array after the opening bracket: a value, then a
    closing bracket or a comma and more items. *)
with parse_items (fuel : nat) (s : string) : option (list json * string) :=
  match fuel with
  | O => None
  | S fuel =>
      match parse_value fuel s with
      | Some (v, r) =>
          match skip_ws r with
          | String c t =>
              if Ascii.eqb c "]"%char then Some ([v], t)
              else if Ascii.eqb c ","%char then
                match parse_items fuel (skip_ws t) with
                | Some (vs, r') => Some (v :: vs, r')
                | None => None
                end
              else None
          | EmptyString => None
          end
      | None => None
      end
  end
(** The members of an object after the opening brace: a quoted key, a
    colon, a value, then a closing brace or a comma and more members. *)
with parse_members (fuel : nat) (s : string) : option (list (string * json) * string) :=
  match fuel with
  | O => None
  | S fuel =>
      match s with
      | String c t =>
          if Ascii.eqb c "034"%char then
            match scan_string t with
            | Some (key, r) =>
                match skip_ws r with
                | String c1 t1 =>
                    if Ascii.eqb c1 ":"%char then
                      match parse_value fuel (skip_ws t1) with
                      | Some (v, r1) =>
                          match skip_ws r1 with
                          | String c2 t2 =>
                              if Ascii.eqb c2 "}"%char then Some ([(key, v)], t2)
                              else if Ascii.eqb c2 ","%char then
                                match parse_members fuel (skip_ws t2) with
                                | Some (ms, r2) => Some ((key, v) :: ms, r2)
                                | None => None
                                end
                              else None
                          | EmptyString => None
                          end
                      | None => None
                      end
                    else None
                | EmptyString => None
                end
            | None => None
            end
          else None
      | EmptyString => None
      end
  end.

(** [json.loads(s)]: leading whitespace, one value, trailing whitespace,
    end of text. *)
Definition loads (s : string) : result json :=
  match parse_value (S (String.length s)) (skip_ws s) with
  | Some (v, r) =>
      match skip_ws r with
      | EmptyString => Ok v
      | _ => Raise JSONDecodeError
      end
  | None => Raise JSONDecodeError
  end.

(** [v[key]] *)
Fixpoint assoc_last (key : string) (members : list (string * json)) : option json :=
  match members with
  | [] => None
  | (k, v) :: rest =>
      match assoc_last key rest with
      | Some v' => Some v'
      | None => if String.eqb k key then Some v else None
      end
  end.

Definition getitem (v : json) (key : string) : result json :=
  match v with
  | JObj members =>
      match assoc_last key members with
      | Some x => Ok x
      | None => Raise (KeyError key)
      end
  | _ => Raise TypeError
  end.

End Json.

Arguments json {_}.

(** What the script relies on from [repr] and [float], for the finite
    floats that an accuracy is: a float read back from its [repr] is the
    same float, and the [repr] of a float is a number literal with a
    fraction or an exponent. *)
Class PyFloatRepr `{PyFloat} : Prop := {
  float_repr_roundtrip : forall x, float_of_literal (float_repr x) = x;
  float_repr_literal : forall x, is_float_literal (float_repr x) = true
}.

(** Rounding to the nearest float is monotone, and 0 and 1 are floats. *)
Class PyFloatRound `{PyFloat} : Prop := {
  float_round_mono :
    forall a b, (a <= b)%Q -> (Q_of_float (float_of_Q a) <= Q_of_float (float_of_Q b))%Q;
  float_round_0 : (Q_of_float (float_of_Q 0) == 0)%Q;
  float_round_1 : (Q_of_float (float_of_Q 1) == 1)%Q
}.

(** [os.listdir] returns the entry names of a directory in an order of
    the file system's choosing. *)
Class OS := {
  dir_order : gset string -> list string
}.

Class OSListing `{OS} : Prop := {
  dir_order_perm : forall names, dir_order names ≡ₚ elements names
}.

(** seaborn and matplotlib: drawing the table either raises or shows the
    chart. *)
Class Seaborn `{PyFloat} := {
  lineplot : list json -> result unit
}.

(** ** The state the script runs in *)

Section Script.
Context `{PyFloat} `{Sklearn} `{OS} `{!Seaborn}.

(** A file of the artifact directory: text, or a model pickled by
    [joblib.dump]. *)
Inductive file :=
| Text (s : string)
| Pickle (m : Model).

Record world := World {
  rng : entropy;                 (* state of the random generator *)
  dir_exists : bool;             (* does [experiment_logs] exist *)
  files : gmap string file;      (* its entries, by name *)
  stdout : list string;          (* printed lines *)
  figures : list (list json)     (* charts shown *)
}.

(** A statement either returns or raises, and changes the world in both
    cases. *)
Definition M (A : Type) : Type := world -> result A * world.

Definition ret {A} (a : A) : M A := fun w => (Ok a, w).

Definition bind {A B} (m : M A) (k : A -> M B) : M B :=
  fun w =>
    match m w with
    | (Ok a, w') => k a w'
    | (Raise e, w') => (Raise e, w')
    end.

(** The value of an expression that cannot touch the world. *)
Definition try {A} (r : result A) : M A := fun w => (r, w).

Definition bind_result {A B} (r : result A) (k : A -> result B) : result B :=
  match r with
  | Ok a => k a
  | Raise e => Raise e
  end.

(** A randomized library call. *)
Definition randomized {A} (f : entropy -> result A * entropy) : M A :=
  fun w =>
    let '(r, g) := f (rng w) in
    (r, World g (dir_exists w) (files w) (stdout w) (figures w)).

End Script.

(** A list comprehension [[f(x) for x in l]] whose body may raise. *)
Fixpoint list_comp {A B} (f : A -> result B) (l : list A) : result (list B) :=
  match l with
  | [] => Ok []
  | x :: rest =>
      match f x with
      | Ok y =>
          match list_comp f rest with
          | Ok ys => Ok (y :: ys)
          | Raise e => Raise e
          end
      | Raise e => Raise e
      end
  end.

Notation "x <- m ;; k" := (bind m (fun x => k))
  (at level 100, m at next level, right associativity).
Notation "x <~ r ;; k" := (bind_result r (fun x => k))
  (at level 100, r at next level, right associativity).

Section Pipeline.
Context `{PyFloat} `{Sklearn} `{OS} `{!Seaborn}.

(** [experiment_dir = 'experiment_logs'] *)
Definition experiment_dir : string := "experiment_logs".

(** [os.path.join(d, name)] for a relative [name]. *)
Definition path_join (d name : string) : string := d +:+ "/" +:+ name.

(** [s] without the prefix [p], when it has it. *)
Fixpoint removeprefix (p s : string) : option string :=
  match p, s with
  | EmptyString, _ => Some s
  | String a p', String b s' => if Ascii.eqb a b then removeprefix p' s' else None
  | String _ _, EmptyString => None
  end.

(** The entry of the artifact directory that a path names. *)
Definition entry_of_path (path : string) : option string :=
  removeprefix (experiment_dir +:+ "/") path.

(** [os.path.exists(experiment_dir)] *)
Definition path_exists : M bool := fun w => (Ok (dir_exists w), w).

(** [os.makedirs(experiment_dir)] *)
Definition makedirs : M unit :=
  fun w => (Ok tt, World (rng w) true (files w) (stdout w) (figures w)).

(** [print(line)] *)
Definition print (line : string) : M unit :=
  fun w => (Ok tt, World (rng w) (dir_exists w) (files w) (stdout w ++ [line]) (figures w)).

(** [open(path, 'w')] followed by writing [content]: creates the file or
    replaces its content. *)
Definition write_file (path : string) (content : file) : M unit :=
  fun w =>
    match entry_of_path path with
    | Some name =>
        if dir_exists w
        then (Ok tt, World (rng w) true (<[name := content]> (files w)) (stdout w) (figures w))
        else (Raise (FileNotFoundError path), w)
    | None => (Raise (FileNotFoundError path), w)
    end.

(** [open(path, 'r')] followed by reading the whole text. *)
Definition read_text (path : string) : M string :=
  fun w =>
    match entry_of_path path with
    | Some name =>
        match files w !! name with
        | Some (Text s) => (Ok s, w)
        | Some (Pickle _) => (Raise JSONDecodeError, w)
        | None => (Raise (FileNotFoundError path), w)
        end
    | None => (Raise (FileNotFoundError path), w)
    end.

(** [os.listdir(experiment_dir)] *)
Definition listdir : M (list string) :=
  fun w =>
    if dir_exists w then (Ok (dir_order (dom (files w))), w)
    else (Raise (FileNotFoundError experiment_dir), w).

(** [plt.show()] of the chart drawn from the table. *)
Definition show (df : list json) : M unit :=
  fun w =>
    match lineplot df with
    | Ok _ => (Ok tt, World (rng w) (dir_exists w) (files w) (stdout w) (figures w ++ [df]))
    | Raise e => (Raise e, w)
    end.

(** ** The experiment runner *)

(** Modelled from the spec: [model.score] is scikit-learn's and is not
    part of the script. The glossary defines held-out accuracy as the
    fraction of correctly classified samples of the split that was not
    used for fitting; the fraction is taken exactly and rounded to a
    float. scikit-learn refuses an empty sample. *)
Definition accuracy_score (y_true y_pred : list label) : Q :=
  Z.of_nat (length (filter (fun p => p.1 = p.2) (zip y_true y_pred)))
  # Pos.of_nat (length y_true).

Definition score (model : Model) (X : list features) (y : list label) : result pyfloat :=
  match X with
  | [] => Raise ValueError
  | _ => Ok (float_of_Q (accuracy_score y (map (predict model) X)))
  end.

(** The path of the log and of the model of an experiment. *)
Definition log_path (experiment_id : Z) : string :=
  experiment_dir +:+ "/log_" +:+ str_of_int experiment_id +:+ ".json".

Definition model_path (experiment_id : Z) : string :=
  experiment_dir +:+ "/model_" +:+ str_of_int experiment_id +:+ ".pkl".

(** The dictionary [log_data]. *)
Definition log_record (experiment_id n_estimators : Z) (accuracy : pyfloat) : json :=
  JObj [("experiment_id", JInt experiment_id);
        ("parameters", JObj [("n_estimators", JInt n_estimators)]);
        ("metrics", JObj [("accuracy", JFloat accuracy)])].

(** The printed line. *)
Definition report_line (experiment_id n_estimators : Z) (accuracy : pyfloat) : string :=
  "Experiment " +:+ str_of_int experiment_id +:+ " - n_estimators: "
  +:+ str_of_int n_estimators +:+ ", Accuracy: " +:+ float_repr accuracy.

(** [run_experiment(n_estimators, experiment_id)] *)
Definition run_experiment (n_estimators experiment_id : Z) : M json :=
  data <- try load_iris ;;
  split <- randomized (train_test_split data) ;;
  let '(train, test) := split in
  model <- randomized (fit n_estimators train) ;;
  accuracy <- try (score model (map fst test) (map snd test)) ;;
  _ <- print (report_line experiment_id n_estimators accuracy) ;;
  let log_data := log_record experiment_id n_estimators accuracy in
  _ <- write_file (log_path experiment_id) (Text (dumps log_data)) ;;
  _ <- write_file (model_path experiment_id) (Pickle model) ;;
  ret log_data.

(** ** The driver loop *)

(** The body of [for i, n_estimators in enumerate(...)], over the items
    that remain, with the list [experiments] accumulated so far. *)
Fixpoint driver_loop (items : list (nat * Z)) (experiments : list json) : M (list json) :=
  match items with
  | [] => ret experiments
  | (i, n_estimators) :: rest =>
      log_data <- run_experiment n_estimators (Z.of_nat i + 1) ;;
      driver_loop rest (experiments ++ [log_data])
  end.

Definition summary_path : string := experiment_dir +:+ "/experiment_summary.json".

(** ** Reading the logs back *)

(** The filter of the aggregator on a file name. *)
Definition is_log_name (file_name : string) : bool :=
  startswith file_name "log_" && endswith file_name ".json".

(** The body of [for file_name in os.listdir(experiment_dir)], over the
    names that remain. *)
Fixpoint load_logs (names : list string) (experiment_logs : list json) : M (list json) :=
  match names with
  | [] => ret experiment_logs
  | file_name :: rest =>
      if is_log_name file_name then
        text <- read_text (path_join experiment_dir file_name) ;;
        log <- try (loads text) ;;
        load_logs rest (experiment_logs ++ [log])
      else load_logs rest experiment_logs
  end.

(** One row of the table: the dictionary built from a log. *)
Definition table_row (log : json) : result json :=
  experiment_id <~ getitem log "experiment_id" ;;
  parameters <~ getitem log "parameters" ;;
  n_estimators <~ getitem parameters "n_estimators" ;;
  metrics <~ getitem log "metrics" ;;
  accuracy <~ getitem metrics "accuracy" ;;
  Ok (JObj [("experiment_id", experiment_id);
            ("n_estimators", n_estimators);
            ("accuracy", accuracy)]).

(** The list comprehension given to [pd.DataFrame]. *)
Definition table_rows (logs : list json) : result (list json) :=
  list_comp table_row logs.

(** ** The script *)

(** Lines 13 to 15: create the directory when it is absent. *)
Definition ensure_dir : M unit :=
  present <- path_exists ;;
  if present then ret tt else makedirs.

(** Lines 47 to 55: run the experiments and write the summary. *)
Definition run_all (values : list Z) : M (list json) :=
  experiments <- driver_loop (enumerate values) [] ;;
  _ <- write_file summary_path (Text (dumps (JArr experiments))) ;;
  ret experiments.

(** Lines 59 to 64: read the logs of the directory. *)
Definition reread : M (list json) :=
  names <- listdir ;;
  load_logs names [].

(** Lines 59 to 71: read the logs and build the table from them. *)
Definition aggregate : M (list json) :=
  experiment_logs <- reread ;;
  try (table_rows experiment_logs).

(** The whole script, for a configured list of values. *)
Definition main (values : list Z) : M unit :=
  _ <- ensure_dir ;;
  _ <- run_all values ;;
  df <- aggregate ;;
  show df.

(** The list the script is configured with. *)
Definition configured : list Z := [10; 50; 100; 200; 500].

Definition script : M unit := main configured.

(** ** Vocabulary of the statements *)

(** The entry names of the log and of the model of an experiment. *)
Definition log_name (experiment_id : Z) : string :=
  "log_" +:+ str_of_int experiment_id +:+ ".json".

Definition model_name (experiment_id : Z) : string :=
  "model_" +:+ str_of_int experiment_id +:+ ".pkl".

Definition summary_name : string := "experiment_summary.json".

(** The identifiers [1..N]. *)
Definition identifiers (N : nat) : list Z := map Z.of_nat (seq 1 N).

(** The arguments [(n_estimators, experiment_id)] of the successive
    calls of the runner for a configured list. *)
Definition expected_calls (values : list Z) : list (Z * Z) :=
  zip values (identifiers (length values)).

(** The calls that the loop makes for enumerated items. *)
Definition calls_of_items (items : list (nat * Z)) : list (Z * Z) :=
  map (fun item => (item.2, Z.of_nat item.1 + 1)) items.

(** The entry names that the runner writes for an identifier. *)
Definition artifact_of (experiment_id : Z) (name : string) : Prop :=
  name = log_name experiment_id \/ name = model_name experiment_id.

(** From [w], the runner is called with each pair of [calls] in turn,
    every call returns, the returned dictionaries are [records], and the
    last call leaves the world [w']. *)
Inductive invocations : world -> list (Z * Z) -> list json -> world -> Prop :=
| invocations_nil w : invocations w [] [] w
| invocations_cons w n_estimators experiment_id record w1 calls records w' :
    run_experiment n_estimators experiment_id w = (Ok record, w1) ->
    invocations w1 calls records w' ->
    invocations w ((n_estimators, experiment_id) :: calls) (record :: records) w'.

(** What [json.load] returns for an entry of the directory. *)
Definition read_log (entries : gmap string file) (name : string) : result json :=
  match entries !! name with
  | Some (Text s) => loads s
  | Some (Pickle _) => Raise JSONDecodeError
  | None => Raise (FileNotFoundError (path_join experiment_dir name))
  end.

(** The names of a listing that pass the aggregator's filter. *)
Definition log_names (names : list string) : list string :=
  filter (fun name => is_log_name name = true) names.

(** A directory without any file that the aggregator would read. *)
Definition clean (entries : gmap string file) : Prop :=
  forall name, is_Some (entries !! name) -> is_log_name name = false.

(** A computation never removes an entry of the directory. *)
Definition keeps_entries {A} (m : M A) : Prop :=
  forall w r w', m w = (r, w') -> dom (files w) ⊆ dom (files w').

(** A computation leaves every entry outside [touched] as it is. *)
Definition writes_only {A} (touched : string -> Prop) (m : M A) : Prop :=
  forall w r w' name, m w = (r, w') -> ~ touched name ->
    files w' !! name = files w !! name.

(** A computation never removes the directory. *)
Definition keeps_directory {A} (m : M A) : Prop :=
  forall w r w', m w = (r, w') -> dir_exists w = true -> dir_exists w' = true.

End Pipeline.

(** ** Text that is read back *)

(** What may follow a number in a text: nothing, or a character that
    cannot continue the number. *)
Definition number_end (rest : string) : bool :=
  match rest with
  | EmptyString => true
  | String c _ =>
      negb (is_digit c || Ascii.eqb c "."%char || Ascii.eqb c "e"%char
            || Ascii.eqb c "E"%char || Ascii.eqb c "+"%char || Ascii.eqb c "-"%char)
  end.

Definition all_digits (s : string) : Prop :=
  span_digits s = (s, "").

Section Reading.
Context `{PyFloat}.

(** A key that the decoder reads back unchanged. *)
Definition plain_key (key : string) : Prop :=
  forall r, scan_string (escape key +:+ String "034"%char r) = Some (key, r).

(** The text of [v], followed by the end of the text or by a delimiter,
    is read back as [v] with any fuel from [k] on. *)
Definition reads (k : nat) (v : json) : Prop :=
  forall fuel rest, (k <= fuel)%nat -> number_end rest = true ->
    skip_ws (dumps v +:+ rest) = dumps v +:+ rest
    /\ parse_value fuel (dumps v +:+ rest) = Some (v, rest).

Definition member_text (kv : string * json) : string :=
  quote kv.1 +:+ ": " +:+ dumps kv.2.

End Reading.

(** ** A small instance of the libraries

    Two floats, 0.0 and 1.0; a data set of five samples with one feature
    and a Boolean label; a classifier that answers with a constant; a
    generator that counts its calls. It is what the statements below are
    evaluated on. *)
Module Toy.

Definition float : PyFloat := {|
  pyfloat := bool;
  float_repr := fun b => if b then "1.0" else "0.0";
  float_of_literal := fun s => String.eqb s "1.0";
  float_of_Q := fun q => Qle_bool (1 # 2) q;
  Q_of_float := fun b => if b then 1%Q else 0%Q
|}.

Definition sklearn : Sklearn := {|
  features := unit;
  label := bool;
  Model := bool;
  entropy := nat;
  load_iris := Ok [(tt, true); (tt, true); (tt, false); (tt, true); (tt, true)];
  train_test_split := fun data g =>
    (match data with
     | x :: rest => Ok (rest, [x])
     | [] => Raise ValueError
     end, S g);
  fit := fun n data g =>
    (if n <=? 0 then Raise ValueError else Ok (Z.even n), S g);
  predict := fun model _ => model
|}.

Definition os : OS := {| dir_order := fun names => elements names |}.

Definition seaborn : @Seaborn float := {|
  lineplot := fun df => match df with [] => Raise ValueError | _ => Ok tt end
|}.

(** The world after the directory is created, before any experiment. *)
Definition world1 : @world float sklearn :=
  @World float sklearn 0%nat true ∅ [] [].

(** The result of a computation, when it returned. *)
Definition value {A} (default : A) (outcome : result A * @world float sklearn) : A :=
  match outcome.1 with
  | Ok a => a
  | Raise _ => default
  end.

(** One experiment. *)
Definition once := @run_experiment float sklearn 10 1 world1.

(** Three experiments: the loop alone, and with the summary. *)
Definition looped := @driver_loop float sklearn (enumerate [10; 5; 3]) [] world1.
Definition first_run := @run_all float sklearn [10; 5; 3] world1.

(** A second, shorter run in the directory that the first one left. *)
Definition second_run := @run_all float sklearn [4] first_run.2.
Definition second_table := @aggregate float sklearn os second_run.2.

(** The text of the third log of the first run, which the second run
    does not overwrite. *)
Definition stale_text : string :=
  match files first_run.2 !! "log_3.json" with
  | Some (Text s) => s
  | _ => ""
  end.

(** The world before the script has ever run: no directory. *)
Definition world0 : @world float sklearn :=
  @World float sklearn 0%nat false ∅ [] [].

(** The whole script for three values, from nothing. *)
Definition whole := @main float sklearn os seaborn [10; 5; 3] world0.

(** The table of the directory that the first run left. *)
Definition first_table := @aggregate float sklearn os first_run.2.

(** A run of three experiments whose second one raises. *)
Definition failed_run := @run_all float sklearn [10; 0; 3] world1.

(** A run whose second experiment raises: the classifier refuses zero
    estimators. *)
Definition before_failure := @driver_loop float sklearn (enumerate [10]) [] world1.
Definition failure := @run_experiment float sklearn 0 2 before_failure.2.

End Toy.

(** * Facts about the embedding *)

Local Open Scope list_scope.
Local Arguments String.append : simpl nomatch.

(** ** Strings *)

Lemma slength_app (s t : string) :
  String.length (s +:+ t) = (String.length s + String.length t)%nat.
Proof. induction s as [|c s IH]; simpl; [reflexivity | now rewrite IH]. Qed.

Lemma sapp_assoc (s t u : string) : (s +:+ t) +:+ u = s +:+ (t +:+ u).
Proof. induction s as [|c s IH]; simpl; [reflexivity | f_equal; exact IH]. Qed.

Lemma sapp_nil_r (s : string) : s +:+ "" = s.
Proof. induction s as [|c s IH]; simpl; [reflexivity | now rewrite IH]. Qed.

Lemma sapp_inv_tail (s1 s2 t : string) : s1 +:+ t = s2 +:+ t -> s1 = s2.
Proof.
  revert s2. induction s1 as [|c s1 IH]; intros [|d s2] E; simpl in E.
  - reflexivity.
  - apply (f_equal String.length) in E. simpl in E. rewrite slength_app in E. lia.
  - apply (f_equal String.length) in E. simpl in E. rewrite slength_app in E. lia.
  - injection E as -> E. f_equal. now apply IH.
Qed.

Lemma removeprefix_app (p s : string) : removeprefix p (p +:+ s) = Some s.
Proof.
  induction p as [|c p IH]; simpl; [reflexivity|].
  now rewrite Ascii.eqb_refl.
Qed.

Lemma prefix_app (p s : string) : String.prefix p (p +:+ s) = true.
Proof.
  induction p as [|c p IH]; simpl.
  - now destruct s.
  - destruct (ascii_dec c c); [exact IH | contradiction].
Qed.

Lemma substring_app_tail (s p : string) :
  String.substring (String.length s) (String.length p) (s +:+ p) = p.
Proof.
  induction s as [|c s IH]; simpl; [|exact IH].
  induction p as [|d p IHp]; simpl; [reflexivity | now rewrite IHp].
Qed.

Lemma endswith_app (s p : string) : endswith (s +:+ p) p = true.
Proof.
  unfold endswith. rewrite slength_app.
  replace (String.length s + String.length p - String.length p)%nat
    with (String.length s) by lia.
  rewrite substring_app_tail, String.eqb_refl, andb_true_r.
  apply Nat.leb_le. lia.
Qed.

(** ** Decimal text of integers *)

Lemma str_of_int_inj (a b : Z) : str_of_int a = str_of_int b -> a = b.
Proof.
  unfold str_of_int. intros E.
  apply (f_equal NilEmpty.int_of_string) in E.
  rewrite !NilEmpty.isi in E. injection E as E.
  now apply DecimalZ.to_int_inj.
Qed.

Lemma int_of_str_of_int (z : Z) : int_of_str (str_of_int z) = z.
Proof.
  unfold int_of_str, str_of_int. rewrite NilEmpty.isi. apply DecimalZ.of_to.
Qed.


Lemma uint_all_digits (d : Decimal.uint) : all_digits (NilEmpty.string_of_uint d).
Proof.
  unfold all_digits. induction d; simpl; try reflexivity; now rewrite IHd.
Qed.

Lemma to_uint_unorm (p : positive) : Decimal.unorm (Pos.to_uint p) = Pos.to_uint p.
Proof.
  rewrite <- DecimalPos.Unsigned.to_of. now rewrite DecimalPos.Unsigned.of_to.
Qed.

Lemma nzhead_not_D0 (d d' : Decimal.uint) : Decimal.nzhead d <> Decimal.D0 d'.
Proof. induction d; simpl; try discriminate. exact IHd. Qed.

Lemma to_uint_head (p : positive) :
  match Pos.to_uint p with
  | Decimal.Nil | Decimal.D0 _ => False
  | _ => True
  end.
Proof.
  pose proof (to_uint_unorm p) as E.
  pose proof (DecimalPos.Unsigned.to_uint_nonzero p) as NZ.
  pose proof (DecimalPos.Unsigned.to_uint_nonnil p) as NN.
  destruct (Pos.to_uint p) as [|d| | | | | | | | | ] eqn:Ep; try exact I.
  - now apply NN.
  - unfold Decimal.unorm in E. simpl in E.
    destruct (Decimal.nzhead d) eqn:En.
    + injection E as E. subst d. now apply NZ.
    + exact (nzhead_not_D0 d u En).
    + discriminate. + discriminate. + discriminate. + discriminate. + discriminate.
    + discriminate. + discriminate. + discriminate. + discriminate.
Qed.

Lemma scan_int_pos (p : positive) :
  scan_int (NilEmpty.string_of_uint (Pos.to_uint p))
  = Some (NilEmpty.string_of_uint (Pos.to_uint p), "").
Proof.
  pose proof (to_uint_head p) as Hh.
  destruct (Pos.to_uint p) as [|d|d|d|d|d|d|d|d|d|d]; try contradiction;
    unfold scan_int; simpl; now rewrite (uint_all_digits d).
Qed.

Lemma scan_int_str_of_int (z : Z) :
  scan_int (str_of_int z) = Some (str_of_int z, "").
Proof.
  destruct z as [|p|p]; unfold str_of_int; simpl.
  - reflexivity.
  - apply scan_int_pos.
  - pose proof (to_uint_head p) as Hh.
    destruct (Pos.to_uint p) as [|d|d|d|d|d|d|d|d|d|d]; try contradiction;
      unfold scan_int; simpl; now rewrite (uint_all_digits d).
Qed.

(** ** Numbers at the head of a longer text *)


Lemma number_end_cases (rest : string) :
  number_end rest = true ->
  rest = "" \/
  exists c t, rest = String c t /\ is_digit c = false /\ Ascii.eqb c "."%char = false
    /\ Ascii.eqb c "e"%char = false /\ Ascii.eqb c "E"%char = false
    /\ Ascii.eqb c "+"%char = false /\ Ascii.eqb c "-"%char = false.
Proof.
  destruct rest as [|c t]; [now left|]. simpl. intros E. right. exists c, t.
  apply negb_true_iff in E. repeat (apply orb_false_iff in E; destruct E as [E ?]).
  repeat split; assumption.
Qed.

Lemma span_digits_app (t rest : string) :
  number_end rest = true ->
  span_digits (t +:+ rest) = ((span_digits t).1, (span_digits t).2 +:+ rest).
Proof.
  intros E. induction t as [|c t IH]; simpl.
  - destruct (number_end_cases rest E) as [-> | (c & t & -> & Hd & _)]; [reflexivity|].
    simpl. now rewrite Hd.
  - destruct (is_digit c); [|reflexivity].
    rewrite IH. now destruct (span_digits t).
Qed.

Lemma span_digits_concat (t : string) :
  (span_digits t).1 +:+ (span_digits t).2 = t.
Proof.
  induction t as [|c t IH]; simpl; [reflexivity|].
  destruct (is_digit c); [|reflexivity].
  destruct (span_digits t); simpl in *. now rewrite IH.
Qed.

Lemma scan_int_app (s rest i s1 : string) :
  scan_int s = Some (i, s1) -> number_end rest = true ->
  scan_int (s +:+ rest) = Some (i, s1 +:+ rest).
Proof.
  intros Hs E. unfold scan_int in *.
  assert (Hbody : forall sign u,
    match u with
    | String c t =>
        if Ascii.eqb c "0"%char then Some (sign +:+ "0", t)
        else if is_digit c then
          let '(ds, r) := span_digits t in Some (sign +:+ String c ds, r)
        else None
    | EmptyString => None
    end = Some (i, s1) ->
    match u +:+ rest with
    | String c t =>
        if Ascii.eqb c "0"%char then Some (sign +:+ "0", t)
        else if is_digit c then
          let '(ds, r) := span_digits t in Some (sign +:+ String c ds, r)
        else None
    | EmptyString => None
    end = Some (i, s1 +:+ rest)).
  { intros sign [|c t]; [discriminate|]. simpl.
    destruct (Ascii.eqb c "0"%char); [now intros [= <- <-]|].
    destruct (is_digit c); [|discriminate].
    rewrite (span_digits_app t rest E). destruct (span_digits t) as [ds r]. simpl.
    now intros [= <- <-]. }
  destruct s as [|c t]; [discriminate|]. simpl in *.
  destruct (Ascii.eqb c "-"%char).
  - now apply Hbody.
  - now apply (Hbody "" (String c t)).
Qed.

Lemma scan_int_concat (s i s1 : string) :
  scan_int s = Some (i, s1) -> s = i +:+ s1.
Proof.
  unfold scan_int.
  assert (Hbody : forall sign u,
    match u with
    | String c t =>
        if Ascii.eqb c "0"%char then Some (sign +:+ "0", t)
        else if is_digit c then
          let '(ds, r) := span_digits t in Some (sign +:+ String c ds, r)
        else None
    | EmptyString => None
    end = Some (i, s1) -> sign +:+ u = i +:+ s1).
  { intros sign [|c t]; [discriminate|].
    destruct (Ascii.eqb_spec c "0"%char) as [->|_].
    - intros [= <- <-]. now rewrite sapp_assoc.
    - destruct (is_digit c); [|discriminate].
      pose proof (span_digits_concat t) as Ht.
      destruct (span_digits t) as [ds r]. simpl in Ht. intros [= <- <-].
      rewrite sapp_assoc. simpl. now rewrite Ht. }
  destruct s as [|c t]; [discriminate|].
  destruct (Ascii.eqb_spec c "-"%char) as [->|_]; intros Hs.
  - apply (Hbody "-" t) in Hs. exact Hs.
  - apply (Hbody "" (String c t)) in Hs. exact Hs.
Qed.

Lemma scan_frac_app (s rest : string) :
  number_end rest = true ->
  scan_frac (s +:+ rest) = ((scan_frac s).1, (scan_frac s).2 +:+ rest).
Proof.
  intros E. destruct s as [|c t]; simpl.
  - destruct (number_end_cases rest E) as [-> | (c & t & -> & _ & Hd & _)]; [reflexivity|].
    simpl. now rewrite Hd.
  - destruct (Ascii.eqb c "."%char); [|reflexivity].
    rewrite (span_digits_app t rest E).
    destruct (span_digits t) as [[|d ds] r]; reflexivity.
Qed.

Lemma scan_frac_concat (s : string) : (scan_frac s).1 +:+ (scan_frac s).2 = s.
Proof.
  destruct s as [|c t]; simpl; [reflexivity|].
  destruct (Ascii.eqb c "."%char); [|reflexivity].
  pose proof (span_digits_concat t) as Ht.
  destruct (span_digits t) as [[|d ds] r]; simpl in *; [reflexivity | now rewrite Ht].
Qed.

Lemma scan_exp_app (s rest : string) :
  number_end rest = true ->
  scan_exp (s +:+ rest) = ((scan_exp s).1, (scan_exp s).2 +:+ rest).
Proof.
  intros E. destruct s as [|c t]; simpl.
  - destruct (number_end_cases rest E) as [-> | (c & t & -> & _ & _ & He & HE & _)];
      [reflexivity|].
    simpl. now rewrite He, HE.
  - destruct (Ascii.eqb c "e"%char || Ascii.eqb c "E"%char); [|reflexivity].
    destruct t as [|c' u]; simpl.
    + destruct (number_end_cases rest E) as [-> | (d & t & -> & Hd & _ & _ & _ & Hp & Hm)];
        [reflexivity|].
      simpl. rewrite Hm, Hp. simpl. now rewrite Hd.
    + destruct (Ascii.eqb c' "-"%char || Ascii.eqb c' "+"%char).
      * rewrite (span_digits_app u rest E).
        destruct (span_digits u) as [[|d ds] r]; reflexivity.
      * change (String c' u +:+ rest) with (String c' (u +:+ rest)).
        change (String c' (u +:+ rest)) with (String c' u +:+ rest).
        rewrite (span_digits_app (String c' u) rest E).
        destruct (span_digits (String c' u)) as [[|d ds] r]; reflexivity.
Qed.

Lemma scan_exp_concat (s : string) : (scan_exp s).1 +:+ (scan_exp s).2 = s.
Proof.
  destruct s as [|c t]; simpl; [reflexivity|].
  destruct (Ascii.eqb c "e"%char || Ascii.eqb c "E"%char); [|reflexivity].
  destruct t as [|c' u]; simpl; [reflexivity|].
  destruct (Ascii.eqb c' "-"%char || Ascii.eqb c' "+"%char).
  - pose proof (span_digits_concat u) as Hu.
    destruct (span_digits u) as [[|d ds] r]; simpl in *; [reflexivity | now rewrite Hu].
  - pose proof (span_digits_concat (String c' u)) as Hu.
    destruct (span_digits (String c' u)) as [[|d ds] r]; simpl in *;
      [reflexivity | now rewrite Hu].
Qed.

Section JsonFacts.
Context `{PyFloat}.

Lemma scan_number_app (s rest : string) (v : json) :
  scan_number s = Some (v, "") -> number_end rest = true ->
  scan_number (s +:+ rest) = Some (v, rest).
Proof.
  unfold scan_number. intros Hs E.
  destruct (scan_int s) as [[i s1]|] eqn:Hi; [|discriminate].
  rewrite (scan_int_app s rest i s1 Hi E).
  rewrite (scan_frac_app s1 rest E).
  destruct (scan_frac s1) as [f s2]. simpl.
  rewrite (scan_exp_app s2 rest E).
  destruct (scan_exp s2) as [e s3]. simpl.
  destruct f, e; injection Hs as <- ->; reflexivity.
Qed.

Lemma scan_number_int (z : Z) : scan_number (str_of_int z) = Some (JInt z, "").
Proof.
  unfold scan_number. rewrite scan_int_str_of_int. simpl.
  now rewrite int_of_str_of_int.
Qed.

Lemma scan_number_float `{!PyFloatRepr} (x : pyfloat) :
  scan_number (float_repr x) = Some (JFloat x, "").
Proof.
  pose proof (float_repr_literal x) as Hl. pose proof (float_repr_roundtrip x) as Hr.
  unfold is_float_literal in Hl. unfold scan_number.
  destruct (scan_int (float_repr x)) as [[i s1]|] eqn:Hi; [|discriminate].
  apply scan_int_concat in Hi.
  pose proof (scan_frac_concat s1) as Hf. destruct (scan_frac s1) as [f s2].
  pose proof (scan_exp_concat s2) as He. destruct (scan_exp s2) as [e s3].
  simpl in *. destruct s3; [|discriminate].
  rewrite sapp_nil_r in He. subst s2 s1. rewrite Hi in Hr.
  destruct f, e; try discriminate; now rewrite Hr.
Qed.

Lemma parse_value_number (k : nat) (s : string) (r : json * string) :
  scan_number s = Some r -> parse_value (S k) s = Some r.
Proof.
  destruct s as [|c t]; [discriminate|].
  destruct c as [[] [] [] [] [] [] [] []]; try discriminate; intros Hs; exact Hs.
Qed.

Lemma parse_value_int (k : nat) (z : Z) (rest : string) :
  number_end rest = true ->
  parse_value (S k) (str_of_int z +:+ rest) = Some (JInt z, rest).
Proof.
  intros E. apply parse_value_number, scan_number_app; [apply scan_number_int | exact E].
Qed.

Lemma parse_value_float `{!PyFloatRepr} (k : nat) (x : pyfloat) (rest : string) :
  number_end rest = true ->
  parse_value (S k) (float_repr x +:+ rest) = Some (JFloat x, rest).
Proof.
  intros E. apply parse_value_number, scan_number_app; [apply scan_number_float | exact E].
Qed.

End JsonFacts.

(** ** Reading back what [dumps] wrote *)

Section ReadingFacts.
Context `{PyFloat}.


Lemma dumps_obj (members : list (string * json)) :
  dumps (JObj members) = "{" +:+ join ", " (map member_text members) +:+ "}".
Proof. reflexivity. Qed.

Lemma dumps_arr (items : list json) :
  dumps (JArr items) = "[" +:+ join ", " (map dumps items) +:+ "]".
Proof. reflexivity. Qed.

Lemma skip_ws_number (s : string) (r : json * string) :
  scan_number s = Some r -> skip_ws s = s.
Proof.
  destruct s as [|c t]; [discriminate|].
  destruct c as [[] [] [] [] [] [] [] []]; try discriminate; reflexivity.
Qed.

Lemma reads_int (z : Z) : reads 1 (JInt z).
Proof.
  intros [|fuel] rest Hk E; [lia|]. simpl dumps. split.
  - eapply skip_ws_number, scan_number_app; [apply scan_number_int | exact E].
  - now apply parse_value_int.
Qed.

Lemma reads_float `{!PyFloatRepr} (x : pyfloat) : reads 1 (JFloat x).
Proof.
  intros [|fuel] rest Hk E; [lia|]. simpl dumps. split.
  - eapply skip_ws_number, scan_number_app; [apply scan_number_float | exact E].
  - now apply parse_value_float.
Qed.

Lemma reads_mono (k k' : nat) (v : json) : (k <= k')%nat -> reads k v -> reads k' v.
Proof. intros Hk Hv fuel rest Hf E. apply Hv; [lia | exact E]. Qed.

Lemma join_cons (sep s : string) (l : list string) :
  l <> [] -> join sep (s :: l) = s +:+ sep +:+ join sep l.
Proof. now destruct l. Qed.

Lemma parse_members_join (k : nat) (members : list (string * json)) :
  members <> [] ->
  Forall (fun kv => plain_key kv.1 /\ reads k kv.2) members ->
  forall fuel rest, (length members + k <= fuel)%nat ->
    skip_ws (join ", " (map member_text members) +:+ String "}" rest)
    = join ", " (map member_text members) +:+ String "}" rest
    /\ parse_members fuel (join ", " (map member_text members) +:+ String "}" rest)
      = Some (members, rest).
Proof.
  induction members as [|[key v] members IH]; [congruence|]. intros _ Hall fuel rest Hf.
  apply Forall_cons in Hall as [[Hkey Hv] Hall]. simpl in Hkey, Hv.
  destruct fuel as [|fuel]; [simpl in Hf; lia|].
  destruct (decide (members = [])) as [->|Hne].
  - simpl join. unfold member_text, quote. simpl fst. simpl snd.
    repeat (rewrite !sapp_assoc; simpl). split; [reflexivity|].
    rewrite Hkey. simpl.
    destruct (Hv fuel (String "}" rest)) as [Hws Hp]; [simpl in Hf; lia | reflexivity |].
    rewrite Hws, Hp. reflexivity.
  - simpl map. rewrite join_cons by (destruct members; [congruence | discriminate]).
    destruct (IH Hne Hall fuel rest) as [Hnext Hrec]; [simpl in Hf; lia|].
    remember (join ", " (map member_text members)) as more eqn:Hmore.
    unfold member_text, quote. simpl fst. simpl snd.
    repeat (rewrite !sapp_assoc; simpl). split; [reflexivity|].
    rewrite Hkey. simpl.
    destruct (Hv fuel (String "," (String " " (more +:+ String "}" rest)))) as [Hws Hp];
      [simpl in Hf; lia | reflexivity |].
    rewrite Hws, Hp. simpl.
    rewrite Hnext, Hrec. reflexivity.
Qed.

Lemma reads_obj (k : nat) (members : list (string * json)) :
  members <> [] ->
  Forall (fun kv => plain_key kv.1 /\ reads k kv.2) members ->
  reads (S (length members + k)) (JObj members).
Proof.
  intros Hne Hall [|fuel] rest Hf _; [lia|].
  rewrite dumps_obj.
  destruct (parse_members_join k members Hne Hall fuel rest ltac:(lia)) as [Hws Hp].
  remember (join ", " (map member_text members)) as body eqn:Hbody.
  repeat (rewrite !sapp_assoc; simpl). split; [reflexivity|].
  rewrite Hws.
  assert (Hhd : exists c t, body +:+ String "}" rest = String c t
                          /\ Ascii.eqb c "}"%char = false).
  { subst body. destruct members as [|[key v] members]; [congruence|].
    destruct (decide (members = [])) as [->|Hne'].
    - eexists _, _. split; [reflexivity | reflexivity].
    - simpl map. rewrite join_cons by (destruct members; [congruence | discriminate]).
      eexists _, _. split; [reflexivity | reflexivity]. }
  destruct Hhd as (c & t & Ht & Hc).
  rewrite Ht in *. rewrite Hc, Hp. reflexivity.
Qed.

Lemma parse_items_join (k : nat) (items : list json) :
  items <> [] ->
  Forall (reads k) items ->
  forall fuel rest, (length items + k <= fuel)%nat ->
    skip_ws (join ", " (map dumps items) +:+ String "]" rest)
    = join ", " (map dumps items) +:+ String "]" rest
    /\ parse_items fuel (join ", " (map dumps items) +:+ String "]" rest)
      = Some (items, rest).
Proof.
  induction items as [|v items IH]; [congruence|]. intros _ Hall fuel rest Hf.
  apply Forall_cons in Hall as [Hv Hall].
  destruct fuel as [|fuel]; [simpl in Hf; lia|].
  destruct (decide (items = [])) as [->|Hne].
  - simpl join.
    destruct (Hv fuel (String "]" rest)) as [Hws Hp]; [simpl in Hf; lia | reflexivity |].
    split; [exact Hws|]. simpl. rewrite Hp. reflexivity.
  - simpl map. rewrite join_cons by (destruct items; [congruence | discriminate]).
    destruct (IH Hne Hall fuel rest) as [Hnext Hrec]; [simpl in Hf; lia|].
    remember (join ", " (map dumps items)) as more eqn:Hmore.
    rewrite !sapp_assoc.
    destruct (Hv fuel (", " +:+ more +:+ String "]" rest)) as [Hws Hp];
      [simpl in Hf; lia | reflexivity |].
    split; [exact Hws|]. simpl. simpl in Hp. rewrite Hp. simpl.
    rewrite Hnext, Hrec. reflexivity.
Qed.

Lemma reads_arr (k : nat) (items : list json) :
  items <> [] ->
  Forall (reads k) items ->
  reads (S (length items + k)) (JArr items).
Proof.
  intros Hne Hall [|fuel] rest Hf _; [lia|].
  rewrite dumps_arr.
  destruct (parse_items_join k items Hne Hall fuel rest ltac:(lia)) as [Hws Hp].
  remember (join ", " (map dumps items)) as body eqn:Hbody.
  repeat (rewrite !sapp_assoc; simpl). split; [reflexivity|].
  rewrite Hws.
  destruct (body +:+ String "]" rest) as [|c t] eqn:Ht.
  - destruct fuel as [|[|fuel]]; simpl in Hp; discriminate Hp.
  - destruct (Ascii.eqb_spec c "]"%char) as [->|Hc].
    + destruct fuel as [|[|fuel]]; simpl in Hp; discriminate Hp.
    + rewrite Hp. reflexivity.
Qed.

Lemma reads_empty_arr : reads 1 (JArr []).
Proof. intros [|fuel] rest Hf _; [lia|]. split; reflexivity. Qed.

(** [json.loads] of [json.dumps]. *)
Lemma loads_dumps (k : nat) (v : json) :
  reads k v -> (k <= String.length (dumps v))%nat -> loads (dumps v) = Ok v.
Proof.
  intros Hv Hk. unfold loads.
  destruct (Hv (S (String.length (dumps v))) "") as [Hws Hp]; [lia | reflexivity |].
  rewrite sapp_nil_r in Hws, Hp. rewrite Hws, Hp. reflexivity.
Qed.

End ReadingFacts.

(** ** The names of the artifacts *)

Lemma entry_of_log_path (id : Z) : entry_of_path (log_path id) = Some (log_name id).
Proof. reflexivity. Qed.

Lemma entry_of_model_path (id : Z) : entry_of_path (model_path id) = Some (model_name id).
Proof. reflexivity. Qed.

Lemma entry_of_summary_path : entry_of_path summary_path = Some summary_name.
Proof. reflexivity. Qed.

Lemma entry_of_joined (name : string) :
  entry_of_path (path_join experiment_dir name) = Some name.
Proof. reflexivity. Qed.

Lemma is_log_name_log (id : Z) : is_log_name (log_name id) = true.
Proof.
  unfold is_log_name, log_name. apply andb_true_intro. split.
  - apply (prefix_app "log_").
  - rewrite <- sapp_assoc. apply endswith_app.
Qed.

Lemma is_log_name_model (id : Z) : is_log_name (model_name id) = false.
Proof. reflexivity. Qed.

Lemma is_log_name_summary : is_log_name summary_name = false.
Proof. reflexivity. Qed.

Lemma log_name_inj (a b : Z) : log_name a = log_name b -> a = b.
Proof.
  unfold log_name. intros E. apply str_of_int_inj.
  apply (sapp_inv_tail _ _ ".json"). now injection E.
Qed.

Lemma model_name_inj (a b : Z) : model_name a = model_name b -> a = b.
Proof.
  unfold model_name. intros E. apply str_of_int_inj.
  apply (sapp_inv_tail _ _ ".pkl"). now injection E.
Qed.

Lemma log_name_not_model (a b : Z) : log_name a <> model_name b.
Proof. discriminate. Qed.

Lemma log_name_not_summary (a : Z) : log_name a <> summary_name.
Proof. discriminate. Qed.

Lemma model_name_not_summary (a : Z) : model_name a <> summary_name.
Proof. discriminate. Qed.

(** ** Sequencing *)

Section Sequencing.
Context `{PyFloat} `{Sklearn}.

Lemma bind_ok {A B} (m : M A) (k : A -> M B) w b w' :
  bind m k w = (Ok b, w') ->
  exists a w1, m w = (Ok a, w1) /\ k a w1 = (Ok b, w').
Proof.
  unfold bind. destruct (m w) as [[a|e] w1]; [eauto | discriminate].
Qed.

Lemma bind_raise {A B} (m : M A) (k : A -> M B) w e w' :
  bind m k w = (Raise e, w') ->
  m w = (Raise e, w') \/ exists a w1, m w = (Ok a, w1) /\ k a w1 = (Raise e, w').
Proof.
  unfold bind. destruct (m w) as [[a|e1] w1]; [eauto | intros [= -> ->]; now left].
Qed.

Lemma bind_step {A B} (m : M A) (k : A -> M B) w a w1 :
  m w = (Ok a, w1) -> bind m k w = k a w1.
Proof. unfold bind. now intros ->. Qed.

Lemma bind_fail {A B} (m : M A) (k : A -> M B) w e w1 :
  m w = (Raise e, w1) -> bind m k w = (Raise e, w1).
Proof. unfold bind. now intros ->. Qed.

End Sequencing.

Section Runner.
Context `{PyFloat} `{Sklearn} `{OS} `{!Seaborn}.

(** What a call of the runner that returns has done. *)
Lemma run_experiment_ok (n id : Z) (w w' : world) (r : json) :
  run_experiment n id w = (Ok r, w') ->
  exists data train test model a g1 g2,
    load_iris = Ok data
    /\ train_test_split data (rng w) = (Ok (train, test), g1)
    /\ fit n train g1 = (Ok model, g2)
    /\ score model (map fst test) (map snd test) = Ok a
    /\ dir_exists w = true
    /\ r = log_record id n a
    /\ w' = World g2 true
              (<[model_name id := Pickle model]>
                 (<[log_name id := Text (dumps (log_record id n a))]> (files w)))
              (stdout w ++ [report_line id n a]) (figures w).
Proof.
  unfold run_experiment, bind, try, randomized, print, write_file, ret.
  rewrite entry_of_log_path, entry_of_model_path.
  destruct load_iris as [data|e] eqn:Hload; [|intros [=]].
  destruct (train_test_split data (rng w)) as [[[train test]|e] g1] eqn:Hsplit; [|intros [=]].
  cbn [rng dir_exists files stdout figures].
  destruct (fit n train g1) as [[model|e] g2] eqn:Hfit; [|intros [=]].
  cbn [rng dir_exists files stdout figures].
  destruct (score model (map fst test) (map snd test)) as [a|e] eqn:Hscore; [|intros [=]].
  cbn [rng dir_exists files stdout figures].
  destruct (dir_exists w) eqn:Hdir; [|intros [=]].
  intros [= <- <-]. exists data, train, test, model, a, g1, g2. repeat split; auto.
Qed.

(** The runner returns when the library calls succeed, the held-out
    split is not empty and the directory exists. *)
Lemma run_experiment_returns (n id : Z) (w : world)
    (data train test : list (features * label)) (model : Model) (g1 g2 : entropy) :
  load_iris = Ok data ->
  train_test_split data (rng w) = (Ok (train, test), g1) ->
  test <> [] ->
  fit n train g1 = (Ok model, g2) ->
  dir_exists w = true ->
  exists r w', run_experiment n id w = (Ok r, w').
Proof.
  intros Hload Hsplit Htest Hfit Hdir.
  unfold run_experiment, bind, try, randomized, print, write_file, ret.
  rewrite entry_of_log_path, entry_of_model_path, Hload, Hsplit.
  cbn [rng dir_exists files stdout figures]. rewrite Hfit.
  cbn [rng dir_exists files stdout figures].
  unfold score. destruct test as [|x test]; [congruence|].
  cbn [map]. cbn [rng dir_exists files stdout figures]. rewrite Hdir.
  eexists _, _. reflexivity.
Qed.

(** A call of the runner that raises has written nothing. *)
Lemma run_experiment_raise (n id : Z) (w w' : world) (e : exn) :
  run_experiment n id w = (Raise e, w') ->
  files w' = files w /\ dir_exists w' = dir_exists w /\ figures w' = figures w.
Proof.
  unfold run_experiment, bind, try, randomized, print, write_file, ret.
  rewrite entry_of_log_path, entry_of_model_path.
  destruct load_iris as [data|e0]; [|now intros [= <- <-]].
  destruct (train_test_split data (rng w)) as [[[train test]|e0] g1]; [|now intros [= <- <-]].
  cbn [rng dir_exists files stdout figures].
  destruct (fit n train g1) as [[model|e0] g2]; [|now intros [= <- <-]].
  cbn [rng dir_exists files stdout figures].
  destruct (score model (map fst test) (map snd test)) as [a|e0]; [|now intros [= <- <-]].
  cbn [rng dir_exists files stdout figures].
  destruct (dir_exists w) eqn:Hd; [intros [=]|].
  intros [= <- <-]. cbn. auto.
Qed.

End Runner.

(** ** What the statements of the script do to the directory *)

Section Effects.
Context `{PyFloat} `{Sklearn} `{OS} `{!Seaborn}.

Lemma keeps_entries_bind {A B} (m : M A) (k : A -> M B) :
  keeps_entries m -> (forall a, keeps_entries (k a)) -> keeps_entries (bind m k).
Proof.
  intros Hm Hk w r w' E. unfold bind in E.
  destruct (m w) as [[a|e] w1] eqn:Em.
  - etransitivity; [exact (Hm _ _ _ Em) | exact (Hk _ _ _ _ E)].
  - injection E as <- <-. exact (Hm _ _ _ Em).
Qed.

Lemma keeps_entries_ret {A} (a : A) : keeps_entries (ret a).
Proof. intros w r w' [= <- <-]. reflexivity. Qed.

Lemma keeps_entries_try {A} (r : result A) : keeps_entries (try r).
Proof. intros w r' w' [= <- <-]. reflexivity. Qed.

Lemma keeps_entries_randomized {A} (f : entropy -> result A * entropy) :
  keeps_entries (randomized f).
Proof.
  intros w r w'. unfold randomized. destruct (f (rng w)). intros [= <- <-]. reflexivity.
Qed.

Lemma keeps_entries_print (line : string) : keeps_entries (print line).
Proof. intros w r w' [= <- <-]. reflexivity. Qed.

Lemma keeps_entries_write_file (path : string) (content : file) :
  keeps_entries (write_file path content).
Proof.
  intros w r w'. unfold write_file.
  destruct (entry_of_path path) as [name|]; [|intros [= <- <-]; reflexivity].
  destruct (dir_exists w); intros [= <- <-]; [|reflexivity].
  cbn. rewrite dom_insert. set_solver.
Qed.

Lemma keeps_entries_read_text (path : string) : keeps_entries (read_text path).
Proof.
  intros w r w'. unfold read_text.
  destruct (entry_of_path path) as [name|]; [|intros [= <- <-]; reflexivity].
  destruct (files w !! name) as [[s|m]|]; intros [= <- <-]; reflexivity.
Qed.

Lemma keeps_entries_listdir : keeps_entries listdir.
Proof.
  intros w r w'. unfold listdir. destruct (dir_exists w); intros [= <- <-]; reflexivity.
Qed.

Lemma keeps_entries_show (df : list json) : keeps_entries (show df).
Proof.
  intros w r w'. unfold show. destruct (lineplot df); intros [= <- <-]; reflexivity.
Qed.

Lemma keeps_entries_ensure_dir : keeps_entries ensure_dir.
Proof.
  intros w r w'. unfold ensure_dir, bind, path_exists, makedirs, ret.
  destruct (dir_exists w); intros [= <- <-]; reflexivity.
Qed.

Lemma keeps_entries_run_experiment (n id : Z) : keeps_entries (run_experiment n id).
Proof.
  unfold run_experiment.
  apply keeps_entries_bind; [apply keeps_entries_try | intros data].
  apply keeps_entries_bind; [apply keeps_entries_randomized | intros [train test]].
  apply keeps_entries_bind; [apply keeps_entries_randomized | intros model].
  apply keeps_entries_bind; [apply keeps_entries_try | intros a].
  apply keeps_entries_bind; [apply keeps_entries_print | intros _].
  apply keeps_entries_bind; [apply keeps_entries_write_file | intros _].
  apply keeps_entries_bind; [apply keeps_entries_write_file | intros _].
  apply keeps_entries_ret.
Qed.

Lemma keeps_entries_driver_loop (items : list (nat * Z)) (experiments : list json) :
  keeps_entries (driver_loop items experiments).
Proof.
  revert experiments. induction items as [|[i n] items IH]; intros experiments; simpl.
  - apply keeps_entries_ret.
  - apply keeps_entries_bind; [apply keeps_entries_run_experiment | intros r; apply IH].
Qed.

Lemma keeps_entries_load_logs (names : list string) (logs : list json) :
  keeps_entries (load_logs names logs).
Proof.
  revert logs. induction names as [|name names IH]; intros logs; simpl.
  - apply keeps_entries_ret.
  - destruct (is_log_name name); [|apply IH].
    apply keeps_entries_bind; [apply keeps_entries_read_text | intros text].
    apply keeps_entries_bind; [apply keeps_entries_try | intros log; apply IH].
Qed.

Lemma keeps_entries_run_all (values : list Z) : keeps_entries (run_all values).
Proof.
  unfold run_all.
  apply keeps_entries_bind; [apply keeps_entries_driver_loop | intros experiments].
  apply keeps_entries_bind; [apply keeps_entries_write_file | intros _].
  apply keeps_entries_ret.
Qed.

Lemma keeps_entries_aggregate : keeps_entries aggregate.
Proof.
  unfold aggregate, reread.
  apply keeps_entries_bind; [|intros logs; apply keeps_entries_try].
  apply keeps_entries_bind; [apply keeps_entries_listdir | intros names].
  apply keeps_entries_load_logs.
Qed.

Lemma keeps_entries_main (values : list Z) : keeps_entries (main values).
Proof.
  unfold main.
  apply keeps_entries_bind; [apply keeps_entries_ensure_dir | intros _].
  apply keeps_entries_bind; [apply keeps_entries_run_all | intros _].
  apply keeps_entries_bind; [apply keeps_entries_aggregate | intros df].
  apply keeps_entries_show.
Qed.

(** The frame of a call of the runner. *)
Lemma run_experiment_frame (n id : Z) :
  writes_only (artifact_of id) (run_experiment n id).
Proof.
  intros w [r|e] w' name E Hname.
  - apply run_experiment_ok in E as (data & train & test & model & a & g1 & g2 & E).
    destruct E as (_ & _ & _ & _ & _ & _ & ->). cbn [files rng dir_exists stdout figures].
    rewrite !lookup_insert_ne; [reflexivity | |]; intros <-; apply Hname; [now left | now right].
  - apply run_experiment_raise in E as [-> _]. reflexivity.
Qed.

End Effects.

(** ** Successive calls of the runner *)

Section Invocations.
Context `{PyFloat} `{Sklearn} `{OS} `{!Seaborn}.

Lemma invocations_length w calls records w' :
  invocations w calls records w' -> length records = length calls.
Proof. induction 1; simpl; congruence. Qed.

Lemma invocations_records w calls records w' :
  invocations w calls records w' ->
  Forall2 (fun call record => exists a, record = log_record call.2 call.1 a) calls records.
Proof.
  induction 1 as [|w n id r w1 calls rs w' Hrun _ IH]; constructor; [|exact IH].
  apply run_experiment_ok in Hrun as (? & ? & ? & ? & a & ? & ? & Hrun).
  exists a. apply Hrun.
Qed.

Lemma invocations_frame w calls records w' (name : string) :
  invocations w calls records w' ->
  (forall call, call ∈ calls -> ~ artifact_of call.2 name) ->
  files w' !! name = files w !! name.
Proof.
  induction 1 as [|w n id r w1 calls rs w' Hrun _ IH]; intros Hname; [reflexivity|].
  rewrite IH by (intros call Hc; apply Hname; now right).
  apply (run_experiment_frame n id _ _ _ _ Hrun).
  apply (Hname (n, id)). now left.
Qed.

Lemma invocations_dir_exists w calls records w' :
  invocations w calls records w' -> dir_exists w' = dir_exists w.
Proof.
  induction 1 as [|w n id r w1 calls rs w' Hrun _ IH]; [reflexivity|].
  rewrite IH.
  apply run_experiment_ok in Hrun as (? & ? & ? & ? & ? & ? & ? & Hrun).
  destruct Hrun as (_ & _ & _ & _ & Hd & _ & ->). now rewrite Hd.
Qed.

Lemma invocations_stdout w calls records w' :
  invocations w calls records w' ->
  exists lines, stdout w' = (stdout w ++ lines)%list
    /\ Forall2 (fun call line => exists a, line = report_line call.2 call.1 a) calls lines.
Proof.
  induction 1 as [|w n id r w1 calls rs w' Hrun _ (lines & IH & Hl)].
  - exists []. split; [now rewrite app_nil_r | constructor].
  - apply run_experiment_ok in Hrun as (? & ? & ? & ? & a & ? & ? & Hrun).
    destruct Hrun as (_ & _ & _ & _ & _ & _ & ->). cbn [files rng dir_exists stdout figures] in IH.
    exists (report_line id n a :: lines). split.
    + rewrite IH, <- app_assoc. reflexivity.
    + constructor; [now exists a | exact Hl].
Qed.

(** The entries of the directory after the calls. *)
Lemma invocations_entries w calls records w' (name : string) :
  invocations w calls records w' ->
  is_Some (files w' !! name) <->
  is_Some (files w !! name) \/ exists call, call ∈ calls /\ artifact_of call.2 name.
Proof.
  induction 1 as [|w n id r w1 calls rs w' Hrun _ IH].
  - split; [now left | intros [Hs | (call & Hc & _)]; [exact Hs | inversion Hc]].
  - rewrite IH.
    apply run_experiment_ok in Hrun as (? & ? & ? & model & a & ? & ? & Hrun).
    destruct Hrun as (_ & _ & _ & _ & _ & _ & ->). cbn [files rng dir_exists stdout figures].
    split.
    + intros [Hs | (call & Hc & Ha)].
      * destruct (decide (name = model_name id)) as [->|Hm];
          [right; exists (n, id); split; [now left | now right]|].
        rewrite lookup_insert_ne in Hs by congruence.
        destruct (decide (name = log_name id)) as [->|Hl];
          [right; exists (n, id); split; [now left | now left]|].
        rewrite lookup_insert_ne in Hs by congruence. now left.
      * right. exists call. split; [now right | exact Ha].
    + intros [Hs | (call & Hc & Ha)].
      * left.
        destruct (decide (name = model_name id)) as [->|Hm];
          [rewrite lookup_insert_eq; eauto|].
        rewrite lookup_insert_ne by congruence.
        destruct (decide (name = log_name id)) as [->|Hl];
          [rewrite lookup_insert_eq; eauto|].
        now rewrite lookup_insert_ne by congruence.
      * apply elem_of_cons in Hc as [-> | Hc].
        -- left. cbn in Ha. destruct Ha as [-> | ->].
           ++ rewrite lookup_insert_ne by (apply not_eq_sym, log_name_not_model).
              rewrite lookup_insert_eq. eauto.
           ++ rewrite lookup_insert_eq. eauto.
        -- right. exists call. split; assumption.
Qed.

(** With distinct identifiers, each call's log and model are in the
    directory at the end, as that call wrote them. *)
Lemma invocations_artifacts w calls records w' :
  invocations w calls records w' ->
  NoDup (map snd calls) ->
  Forall2 (fun call record =>
             files w' !! log_name call.2 = Some (Text (dumps record))
             /\ exists model, files w' !! model_name call.2 = Some (Pickle model))
          calls records.
Proof.
  induction 1 as [|w n id r w1 calls rs w' Hrun Hrest IH]; intros Hnd; [constructor|].
  cbn in Hnd. apply NoDup_cons in Hnd as [Hid Hnd].
  constructor; [|exact (IH Hnd)].
  assert (Hother : forall name, artifact_of id name ->
            forall call, call ∈ calls -> ~ artifact_of call.2 name).
  { intros name Hn call Hc Ha. apply Hid.
    assert (call.2 = id) as <-.
    { destruct Hn as [-> | ->], Ha as [Ha | Ha].
      - symmetry. now apply log_name_inj.
      - now apply log_name_not_model in Ha.
      - symmetry in Ha. now apply log_name_not_model in Ha.
      - symmetry. now apply model_name_inj. }
    apply list_elem_of_fmap. now exists call. }
  cbn [snd].
  rewrite (invocations_frame _ _ _ _ (log_name id) Hrest) by (apply Hother; now left).
  rewrite (invocations_frame _ _ _ _ (model_name id) Hrest) by (apply Hother; now right).
  apply run_experiment_ok in Hrun as (? & ? & ? & model & a & ? & ? & Hrun).
  destruct Hrun as (_ & _ & _ & _ & _ & -> & ->). cbn [files rng dir_exists stdout figures]. split.
  - rewrite lookup_insert_ne by (apply not_eq_sym, log_name_not_model).
    now rewrite lookup_insert_eq.
  - exists model. now rewrite lookup_insert_eq.
Qed.

Lemma invocations_app w calls1 records1 w1 calls2 records2 w2 :
  invocations w calls1 records1 w1 ->
  invocations w1 calls2 records2 w2 ->
  invocations w (calls1 ++ calls2) (records1 ++ records2) w2.
Proof.
  induction 1; intros Hnext; simpl; [exact Hnext|].
  econstructor; [eassumption | auto].
Qed.

(** *** The loop *)

Lemma calls_of_enumerate_from (start : nat) (values : list Z) :
  calls_of_items (zip (seq start (length values)) values)
  = zip values (map Z.of_nat (seq (S start) (length values))).
Proof.
  revert start. induction values as [|n values IH]; intros start; [reflexivity|].
  cbn. rewrite IH. do 2 f_equal. lia.
Qed.

Lemma calls_of_enumerate (values : list Z) :
  calls_of_items (enumerate values) = expected_calls values.
Proof. apply calls_of_enumerate_from. Qed.

Lemma driver_loop_ok (items : list (nat * Z)) (acc records : list json) w w' :
  driver_loop items acc w = (Ok records, w') ->
  exists rs, records = acc ++ rs /\ invocations w (calls_of_items items) rs w'.
Proof.
  revert acc w. induction items as [|[i n] items IH]; intros acc w E; simpl in E.
  - injection E as <- <-. exists []. split; [now rewrite app_nil_r | constructor].
  - apply bind_ok in E as (r & w1 & Hrun & E).
    apply IH in E as (rs & -> & Hrest).
    exists (r :: rs). split; [now rewrite <- app_assoc|].
    simpl. econstructor; eassumption.
Qed.

Lemma driver_loop_complete (items : list (nat * Z)) (acc rs : list json) w w' :
  invocations w (calls_of_items items) rs w' ->
  driver_loop items acc w = (Ok (acc ++ rs), w').
Proof.
  revert acc rs w. induction items as [|[i n] items IH]; intros acc rs w Hinv;
    simpl in Hinv; inversion Hinv; subst; simpl.
  - now rewrite app_nil_r.
  - erewrite bind_step by eassumption.
    erewrite IH by eassumption. now rewrite <- app_assoc.
Qed.

Lemma driver_loop_interrupted (pre post : list (nat * Z)) (i : nat) (n : Z)
    (acc rs : list json) w w1 w' e :
  invocations w (calls_of_items pre) rs w1 ->
  run_experiment n (Z.of_nat i + 1) w1 = (Raise e, w') ->
  driver_loop (pre ++ (i, n) :: post) acc w = (Raise e, w').
Proof.
  revert acc rs w. induction pre as [|[j m] pre IH]; intros acc rs w Hinv Hrun;
    simpl in Hinv; inversion Hinv; subst; simpl.
  - now apply bind_fail.
  - erewrite bind_step by eassumption. eapply IH; eassumption.
Qed.

(** The calls for the list the script is configured with. *)
Example configured_calls :
  expected_calls configured = [(10, 1); (50, 2); (100, 3); (200, 4); (500, 5)].
Proof. reflexivity. Qed.

Lemma NoDup_identifiers (N : nat) : NoDup (identifiers N).
Proof.
  unfold identifiers. apply NoDup_fmap; [intros a b; lia | apply NoDup_seq].
Qed.

Lemma expected_calls_fst (values : list Z) : map fst (expected_calls values) = values.
Proof.
  unfold expected_calls. apply fst_zip. unfold identifiers.
  rewrite length_map, length_seq. lia.
Qed.

Lemma expected_calls_snd (values : list Z) :
  map snd (expected_calls values) = identifiers (length values).
Proof.
  unfold expected_calls. apply snd_zip. unfold identifiers.
  rewrite length_map, length_seq. lia.
Qed.

End Invocations.

(** ** Reading the directory *)

Section Aggregation.
Context `{PyFloat} `{Sklearn} `{OS} `{!Seaborn}.

Lemma list_comp_ok {A B} (f : A -> result B) (l : list A) (ys : list B) :
  list_comp f l = Ok ys <-> Forall2 (fun x y => f x = Ok y) l ys.
Proof.
  revert ys. induction l as [|x l IH]; intros ys; simpl.
  - split; [intros [= <-]; constructor | intros Hn; inversion Hn; reflexivity].
  - split.
    + destruct (f x) as [y|e] eqn:Ex; [|discriminate].
      destruct (list_comp f l) as [ys'|e]; [|discriminate].
      intros [= <-]. constructor; [exact Ex | now apply IH].
    + intros Hc. inversion Hc as [|? y ? ys' Ex Hrest]; subst.
      rewrite Ex. apply IH in Hrest. now rewrite Hrest.
Qed.

Lemma log_names_cons (name : string) (names : list string) :
  log_names (name :: names)
  = if is_log_name name then name :: log_names names else log_names names.
Proof.
  unfold log_names. rewrite filter_cons.
  destruct (is_log_name name); destruct (decide _); congruence.
Qed.

Lemma elem_of_log_names (name : string) (names : list string) :
  name ∈ log_names names <-> is_log_name name = true /\ name ∈ names.
Proof.
  unfold log_names.
  exact (list_elem_of_filter (fun x => is_log_name x = true) names name).
Qed.

(** The loop over the listing reads the entries that pass the filter, in
    the order of the listing, and changes nothing. *)
Lemma load_logs_spec (names : list string) (acc : list json) (w : world) :
  load_logs names acc w
  = (match list_comp (read_log (files w)) (log_names names) with
     | Ok logs => Ok (acc ++ logs)
     | Raise e => Raise e
     end, w).
Proof.
  revert acc. induction names as [|name names IH]; intros acc.
  - simpl. unfold ret. now rewrite app_nil_r.
  - rewrite log_names_cons. simpl. destruct (is_log_name name); [|apply IH].
    unfold bind at 1. unfold read_text. rewrite entry_of_joined.
    simpl. unfold read_log at 1.
    destruct (files w !! name) as [[s|m]|]; [|reflexivity|reflexivity].
    unfold bind, try. destruct (loads s) as [log|e]; [|reflexivity].
    rewrite IH. destruct (list_comp _ _); [|reflexivity].
    now rewrite <- app_assoc.
Qed.

Lemma reread_spec (w : world) :
  reread w
  = (if dir_exists w then
       list_comp (read_log (files w)) (log_names (dir_order (dom (files w))))
     else Raise (FileNotFoundError experiment_dir), w).
Proof.
  unfold reread, bind, listdir. destruct (dir_exists w); [|reflexivity].
  rewrite load_logs_spec. destruct (list_comp _ _); reflexivity.
Qed.

Lemma aggregate_spec (w : world) :
  aggregate w
  = (if dir_exists w then
       match list_comp (read_log (files w)) (log_names (dir_order (dom (files w)))) with
       | Ok logs => table_rows logs
       | Raise e => Raise e
       end
     else Raise (FileNotFoundError experiment_dir), w).
Proof.
  unfold aggregate, bind. rewrite reread_spec. unfold try.
  destruct (dir_exists w); [|reflexivity].
  destruct (list_comp _ _); reflexivity.
Qed.

Lemma table_row_log_record (id n : Z) (a : pyfloat) :
  table_row (log_record id n a)
  = Ok (JObj [("experiment_id", JInt id); ("n_estimators", JInt n); ("accuracy", JFloat a)]).
Proof. reflexivity. Qed.

End Aggregation.

(** ** The text of a log and of the summary *)

Section Records.
Context `{PyFloat} `{!PyFloatRepr} `{Sklearn} `{OS} `{!Seaborn}.

Lemma reads_obj_with (k fuel : nat) (members : list (string * json)) :
  members <> [] ->
  Forall (fun kv => plain_key kv.1 /\ reads k kv.2) members ->
  fuel = S (length members + k) ->
  reads fuel (JObj members).
Proof. intros Hne Hall ->. now apply reads_obj. Qed.

Lemma reads_log_record (id n : Z) (a : pyfloat) : reads 7 (log_record id n a).
Proof.
  unfold log_record.
  apply (reads_obj_with 3); [discriminate | | reflexivity].
  apply Forall_cons. split.
  { split; [intros r; reflexivity|].
    assert (Hle : (1 <= 3)%nat) by lia.
    exact (reads_mono 1 3 _ Hle (reads_int id)). }
  apply Forall_cons. split.
  { split; [intros r; reflexivity|]. cbn [snd].
    apply (reads_obj_with 1 3 [("n_estimators", JInt n)]); [discriminate | | reflexivity].
    apply Forall_cons. split; [|constructor].
    split; [intros r; reflexivity | exact (reads_int n)]. }
  apply Forall_cons. split; [|constructor].
  split; [intros r; reflexivity|]. cbn [snd].
  apply (reads_obj_with 1 3 [("accuracy", JFloat a)]); [discriminate | | reflexivity].
  apply Forall_cons. split; [|constructor].
  split; [intros r; reflexivity | exact (reads_float a)].
Qed.

Lemma length_log_record (id n : Z) (a : pyfloat) :
  (9 <= String.length (dumps (log_record id n a)))%nat.
Proof. unfold log_record. rewrite dumps_obj. simpl. lia. Qed.

Lemma loads_log_record (id n : Z) (a : pyfloat) :
  loads (dumps (log_record id n a)) = Ok (log_record id n a).
Proof.
  apply (loads_dumps 7); [apply reads_log_record|].
  pose proof (length_log_record id n a). lia.
Qed.

Lemma length_join (sep : string) (c : nat) (l : list string) :
  Forall (fun s => (c <= String.length s)%nat) l ->
  (c * length l <= String.length (join sep l))%nat.
Proof.
  induction 1 as [|s l Hs Hl IH]; [simpl; lia|].
  destruct (decide (l = [])) as [->|Hne]; [simpl; lia|].
  rewrite join_cons by exact Hne. rewrite !slength_app. simpl length. lia.
Qed.

Lemma loads_records (records : list json) :
  Forall (fun r => exists id n a, r = log_record id n a) records ->
  loads (dumps (JArr records)) = Ok (JArr records).
Proof.
  intros Hall. destruct (decide (records = [])) as [->|Hne]; [reflexivity|].
  apply (loads_dumps (S (length records + 7))).
  - apply reads_arr; [exact Hne|].
    eapply Forall_impl; [exact Hall|]. intros r (id & n & a & ->). apply reads_log_record.
  - rewrite dumps_arr, !slength_app. simpl String.length.
    assert (Hlen : (9 * length (map dumps records)
                    <= String.length (join ", " (map dumps records)))%nat).
    { apply length_join, Forall_fmap. eapply Forall_impl; [exact Hall|].
      intros r (id & n & a & ->). apply length_log_record. }
    rewrite length_map in Hlen. destruct records; [congruence | simpl in *; lia].
Qed.

End Records.

(** ** Runs of the whole loop *)

Section Runs.
Context `{PyFloat} `{Sklearn} `{OS} `{!Seaborn}.

Lemma list_comp_total {A B} (f : A -> result B) (g : A -> B) (l : list A) :
  (forall x, x ∈ l -> f x = Ok (g x)) -> list_comp f l = Ok (map g l).
Proof.
  induction l as [|x l IH]; intros Hf; simpl; [reflexivity|].
  rewrite (Hf x) by now left. rewrite IH; [reflexivity|].
  intros y Hy. apply Hf. now right.
Qed.

Lemma Forall2_map_eq {A B} (h : A -> B) (l : list A) (k : list B) :
  Forall2 (fun x y => h x = y) l k -> map h l = k.
Proof. induction 1; simpl; congruence. Qed.

Lemma read_logs_entries (entries : gmap string file) (names : list string)
    (logs : list json) :
  list_comp (read_log entries) (log_names names) = Ok logs ->
  Forall2 (fun name log =>
             is_log_name name = true
             /\ exists text, entries !! name = Some (Text text) /\ loads text = Ok log)
          (log_names names) logs.
Proof.
  revert logs. induction names as [|name names IH]; intros logs.
  - intros [= <-]. constructor.
  - rewrite log_names_cons. destruct (is_log_name name) eqn:Hn; [|apply IH].
    simpl. unfold read_log at 1.
    destruct (entries !! name) as [[text|m]|] eqn:Hl; try discriminate.
    destruct (loads text) as [log|e] eqn:Hp; [|discriminate].
    destruct (list_comp _ _) as [rest|e] eqn:Hrest; [|discriminate].
    intros [= <-]. constructor; [|now apply IH].
    split; [exact Hn | now exists text].
Qed.

Lemma enumerate_middle (pre post : list Z) (n : Z) :
  enumerate (pre ++ n :: post)
  = enumerate pre ++ (length pre, n) :: zip (seq (S (length pre)) (length post)) post.
Proof.
  unfold enumerate. rewrite length_app. simpl length.
  rewrite seq_app, zip_with_app by now rewrite length_seq.
  reflexivity.
Qed.

Lemma summary_not_artifact (id : Z) : ~ artifact_of id summary_name.
Proof. intros [E | E]; discriminate. Qed.

(** After a run of all experiments: the loop ran to its end, the
    directory exists, and the summary is the only entry written after the
    last experiment. *)
Lemma run_all_ok (values : list Z) (w w' : world) (records : list json) :
  run_all values w = (Ok records, w') ->
  exists w1,
    invocations w (expected_calls values) records w1
    /\ dir_exists w' = true
    /\ files w' = <[summary_name := Text (dumps (JArr records))]> (files w1).
Proof.
  intros E. unfold run_all in E.
  apply bind_ok in E as (experiments & w1 & Hloop & E).
  apply bind_ok in E as ([] & w2 & Hwrite & E).
  injection E as -> ->.
  unfold write_file in Hwrite. rewrite entry_of_summary_path in Hwrite.
  destruct (dir_exists w1) eqn:Hdir; [|discriminate].
  injection Hwrite as <-.
  apply driver_loop_ok in Hloop as (rs & -> & Hinv).
  rewrite calls_of_enumerate in Hinv.
  exists w1. split; [exact Hinv|]. split; reflexivity.
Qed.

Lemma logs_read_back `{!PyFloatRepr} (written entries : gmap string file)
    (calls : list (Z * Z)) (records : list json) :
  (forall id, entries !! log_name id = written !! log_name id) ->
  Forall2 (fun call record =>
             written !! log_name call.2 = Some (Text (dumps record))
             /\ exists model, written !! model_name call.2 = Some (Pickle model))
          calls records ->
  Forall2 (fun call record => exists a, record = log_record call.2 call.1 a) calls records ->
  Forall2 (fun call record => read_log entries (log_name call.2) = Ok record) calls records.
Proof.
  intros Hsame Hart. induction Hart as [|call r calls' rs [Hlog _] _ IH]; intros Hrec;
    [constructor|].
  apply Forall2_cons_1 in Hrec as [(a & ->) Hrec].
  constructor; [|exact (IH Hrec)].
  unfold read_log. rewrite Hsame, Hlog. apply loads_log_record.
Qed.

End Runs.

(** * The properties of the specification *)

Section Claims.
Context `{PyFloat} `{Sklearn} `{OS} `{!Seaborn}.

(** C1. For a configured list of N values and a loop that runs to its
    end, the runner is called once per value, in list order; the i-th call
    (from 1) receives the identifier i and the i-th value, so the
    identifiers are exactly 1..N; each call returns the record of its
    arguments and prints its line. *)
Theorem driver_loop_calls (values : list Z) (w w' : world) (records : list json) :
  driver_loop (enumerate values) [] w = (Ok records, w') ->
  invocations w (expected_calls values) records w'
  /\ map fst (expected_calls values) = values
  /\ map snd (expected_calls values) = map Z.of_nat (seq 1 (length values))
  /\ length records = length values
  /\ Forall2 (fun call record => exists a, record = log_record call.2 call.1 a)
             (expected_calls values) records
  /\ exists lines, stdout w' = stdout w ++ lines
       /\ Forall2 (fun call line => exists a, line = report_line call.2 call.1 a)
                  (expected_calls values) lines.
Proof.
  intros E. apply driver_loop_ok in E as (rs & -> & Hinv).
  rewrite calls_of_enumerate in Hinv. simpl.
  split; [exact Hinv|].
  split; [apply expected_calls_fst|].
  split; [apply expected_calls_snd|].
  split.
  { rewrite (invocations_length _ _ _ _ Hinv).
    rewrite <- (expected_calls_fst values) at 2. now rewrite length_map. }
  split; [exact (invocations_records _ _ _ _ Hinv)|].
  exact (invocations_stdout _ _ _ _ Hinv).
Qed.

(** C2. A log written by the runner, read back by the loop of the
    aggregator, is the record that was written: the same identifier, the
    same n_estimators under "parameters" and the same accuracy under
    "metrics". *)
Theorem log_roundtrip `{Hrepr : !PyFloatRepr} (n id : Z) (w w' : world) (r : json) :
  run_experiment n id w = (Ok r, w') ->
  exists a,
    r = log_record id n a
    /\ read_text (log_path id) w' = (Ok (dumps r), w')
    /\ loads (dumps r) = Ok r
    /\ load_logs [log_name id] [] w' = (Ok [r], w')
    /\ table_row r
       = Ok (JObj [("experiment_id", JInt id); ("n_estimators", JInt n);
                   ("accuracy", JFloat a)]).
Proof.
  intros E. apply run_experiment_ok in E as (data & train & test & model & a & g1 & g2 & E).
  destruct E as (_ & _ & _ & _ & _ & -> & ->).
  assert (Hlook : forall g d (o : list string) (f : list (list json)) m,
            files (World g d
                     (<[model_name id := Pickle model]>
                        (<[log_name id := Text (dumps (log_record id n a))]> m)) o f)
              !! log_name id = Some (Text (dumps (log_record id n a)))).
  { intros. cbn [files].
    rewrite lookup_insert_ne by (apply not_eq_sym, log_name_not_model).
    apply lookup_insert_eq. }
  exists a. split; [reflexivity|]. split.
  { unfold read_text. rewrite entry_of_log_path, Hlook. reflexivity. }
  split; [apply loads_log_record|]. split.
  { rewrite load_logs_spec, log_names_cons, is_log_name_log.
    cbn [log_names filter list_filter list_comp]. unfold read_log.
    rewrite Hlook, loads_log_record. reflexivity. }
  apply table_row_log_record.
Qed.

(** C3. After a run of all experiments, the summary holds the records
    that the runner returned, as an array in the order of the loop; the
    array has as many records as there are configured values; for an
    empty list the summary is the empty array and nothing else is added
    to the directory. *)
Theorem summary_artifact `{Hrepr : !PyFloatRepr} (values : list Z) (w w' : world)
    (records : list json) :
  run_all values w = (Ok records, w') ->
  (exists w1, driver_loop (enumerate values) [] w = (Ok records, w1)
              /\ invocations w (expected_calls values) records w1)
  /\ entry_of_path summary_path = Some summary_name
  /\ files w' !! summary_name = Some (Text (dumps (JArr records)))
  /\ loads (dumps (JArr records)) = Ok (JArr records)
  /\ length records = length values
  /\ (values = [] ->
      dumps (JArr records) = "[]"
      /\ files w' = <[summary_name := Text "[]"]> (files w)).
Proof.
  intros E. unfold run_all in E.
  apply bind_ok in E as (experiments & w1 & Hloop & E).
  apply bind_ok in E as ([] & w2 & Hwrite & E).
  injection E as -> ->.
  unfold write_file in Hwrite. rewrite entry_of_summary_path in Hwrite.
  destruct (dir_exists w1) eqn:Hdir; [|discriminate].
  injection Hwrite as <-.
  destruct (driver_loop_ok _ _ _ _ _ Hloop) as (rs & Hrs & Hinv).
  simpl in Hrs. subst rs. rewrite calls_of_enumerate in Hinv.
  pose proof (invocations_records _ _ _ _ Hinv) as Hrec.
  assert (Hlen : length records = length values).
  { rewrite (invocations_length _ _ _ _ Hinv).
    rewrite <- (expected_calls_fst values) at 2. now rewrite length_map. }
  split; [now exists w1|].
  split; [reflexivity|].
  split; [cbn [files]; apply lookup_insert_eq|].
  split.
  { apply loads_records. clear -Hrec.
    induction Hrec as [|call r calls rs (a & ->) _ IH]; constructor; [eauto | exact IH]. }
  split; [exact Hlen|].
  intros ->. simpl in Hloop. injection Hloop as <- <-. split; reflexivity.
Qed.

(** C4. The table of the aggregator has one row per entry of the
    directory whose name passes the filter, built from what that entry
    holds: its identifier, its n_estimators and its accuracy; the
    aggregator takes nothing else as input and changes nothing. So a log
    left in the directory by an earlier run, which the present run does
    not overwrite, has its row in the table. *)
Theorem aggregator_reads_the_directory `{Hlisting : !OSListing} :
  (forall w df w',
     aggregate w = (Ok df, w') ->
     w' = w
     /\ log_names (dir_order (dom (files w))) ≡ₚ log_names (elements (dom (files w)))
     /\ exists logs,
          Forall2 (fun name log =>
                     is_log_name name = true
                     /\ exists text, files w !! name = Some (Text text)
                                     /\ loads text = Ok log)
                  (log_names (dir_order (dom (files w)))) logs
          /\ Forall2 (fun log row =>
                        exists e n a,
                          getitem log "experiment_id" = Ok e
                          /\ row = JObj [("experiment_id", e); ("n_estimators", n);
                                         ("accuracy", a)]
                          /\ table_row log = Ok row)
                     logs df)
  /\ (forall values w records w1 df w2 name text,
        run_all values w = (Ok records, w1) ->
        aggregate w1 = (Ok df, w2) ->
        files w !! name = Some (Text text) ->
        is_log_name name = true ->
        name ∉ map log_name (identifiers (length values)) ->
        exists log row, loads text = Ok log /\ table_row log = Ok row /\ row ∈ df).
Proof.
  assert (Hagg : forall w df w',
     aggregate w = (Ok df, w') ->
     w' = w /\ exists logs,
       list_comp (read_log (files w)) (log_names (dir_order (dom (files w)))) = Ok logs
       /\ Forall2 (fun log row => table_row log = Ok row) logs df).
  { intros w df w' E. rewrite aggregate_spec in E.
    destruct (dir_exists w); [|discriminate].
    destruct (list_comp _ _) as [logs|e] eqn:Hlogs; [|discriminate].
    injection E as E <-. split; [reflexivity|]. exists logs. split; [reflexivity|].
    now apply list_comp_ok. }
  split.
  - intros w df w' E. apply Hagg in E as (-> & logs & Hlogs & Hrows).
    split; [reflexivity|]. split.
    { unfold log_names. now rewrite dir_order_perm. }
    exists logs. split; [now apply read_logs_entries|].
    eapply Forall2_impl; [exact Hrows|]. intros log row Hrow.
    pose proof Hrow as Hrow0.
    unfold table_row, bind_result in Hrow.
    destruct (getitem log "experiment_id") as [e|]; [|discriminate].
    destruct (getitem log "parameters") as [p|]; [|discriminate].
    destruct (getitem p "n_estimators") as [n|]; [|discriminate].
    destruct (getitem log "metrics") as [m|]; [|discriminate].
    destruct (getitem m "accuracy") as [a|]; [|discriminate].
    injection Hrow as <-. exists e, n, a. repeat split; try reflexivity. exact Hrow0.
  - intros values w records w1 df w2 name text Hrun E Hold Hname Hstale.
    apply Hagg in E as (_ & logs & Hlogs & Hrows).
    apply run_all_ok in Hrun as (w0 & Hinv & Hdir & Hfiles).
    assert (Hkept : files w1 !! name = Some (Text text)).
    { rewrite Hfiles, lookup_insert_ne by (intros <-; discriminate).
      rewrite (invocations_frame _ _ _ _ name Hinv); [exact Hold|].
      intros call Hc [-> | ->]; [|rewrite is_log_name_model in Hname; discriminate].
      apply Hstale. apply list_elem_of_fmap. exists call.2. split; [reflexivity|].
      rewrite <- expected_calls_snd. apply list_elem_of_fmap. now exists call. }
    assert (Hin : name ∈ log_names (dir_order (dom (files w1)))).
    { apply elem_of_log_names. split; [exact Hname|].
      rewrite dir_order_perm, elem_of_elements, elem_of_dom. now rewrite Hkept. }
    apply list_elem_of_lookup in Hin as [i Hi].
    apply list_comp_ok in Hlogs.
    destruct (Forall2_lookup_l _ _ _ _ _ Hlogs Hi) as (log & Hlog & Hread).
    destruct (Forall2_lookup_l _ _ _ _ _ Hrows Hlog) as (row & Hrow & Htab).
    unfold read_log in Hread. rewrite Hkept in Hread.
    exists log, row. split; [exact Hread|]. split; [exact Htab|].
    apply list_elem_of_lookup. now exists i.
Qed.

(** C5. Every record that the runner returns carries, under "metrics",
    an accuracy whose value lies between 0 and 1. *)
Theorem accuracy_in_unit_interval `{Hround : !PyFloatRound} (n id : Z) (w w' : world) (r : json) :
  run_experiment n id w = (Ok r, w') ->
  exists a, getitem r "metrics" = Ok (JObj [("accuracy", JFloat a)])
    /\ (0 <= Q_of_float a)%Q /\ (Q_of_float a <= 1)%Q.
Proof.
  intros E. apply run_experiment_ok in E as (data & train & test & model & a & g1 & g2 & E).
  destruct E as (_ & _ & _ & Hscore & _ & -> & _).
  exists a. split; [reflexivity|].
  unfold score in Hscore. destruct (map fst test) as [|x X] eqn:HX; [discriminate|].
  injection Hscore as <-.
  set (q := accuracy_score _ _).
  assert (Hq : (0 <= q)%Q /\ (q <= 1)%Q).
  { subst q. unfold accuracy_score. set (y := map snd test).
    set (hits := filter _ _).
    assert (Hlen : (length hits <= length y)%nat).
    { subst hits. etransitivity; [apply length_filter|].
      rewrite length_zip_with. lia. }
    assert (Hy : length y <> 0%nat).
    { subst y. rewrite length_map, <- (length_map fst), HX. discriminate. }
    unfold Qle. simpl Qnum. simpl Qden.
    rewrite <- (positive_nat_Z (Pos.of_nat (length y))), Nat2Pos.id by exact Hy.
    lia. }
  destruct Hq as [Hlo Hhi]. split.
  - rewrite <- float_round_0. now apply float_round_mono.
  - rewrite <- float_round_1. now apply float_round_mono.
Qed.

(** C6. The log that the runner writes is the text of an object with the
    three keys "experiment_id", "parameters" and "metrics" and no other:
    an integer, an object holding the integer "n_estimators", and an
    object holding the float "accuracy". *)
Theorem log_artifact_shape `{Hrepr : !PyFloatRepr} (n id : Z) (w w' : world) (r : json) :
  run_experiment n id w = (Ok r, w') ->
  entry_of_path (log_path id) = Some (log_name id)
  /\ exists text a,
       files w' !! log_name id = Some (Text text)
       /\ loads text
          = Ok (JObj [("experiment_id", JInt id);
                      ("parameters", JObj [("n_estimators", JInt n)]);
                      ("metrics", JObj [("accuracy", JFloat a)])]).
Proof.
  intros E. split; [reflexivity|].
  apply run_experiment_ok in E as (data & train & test & model & a & g1 & g2 & E).
  destruct E as (_ & _ & _ & _ & _ & -> & ->).
  exists (dumps (log_record id n a)), a. split.
  - cbn [files]. rewrite lookup_insert_ne by (apply not_eq_sym, log_name_not_model).
    apply lookup_insert_eq.
  - apply loads_log_record.
Qed.

(** C7. From a directory without logs, after a run of all experiments,
    the logs that the aggregator reads back from the directory are the
    records accumulated by the loop, up to the order of the listing. *)
Theorem reread_logs_are_the_records `{Hrepr : !PyFloatRepr} `{Hlisting : !OSListing}
    (values : list Z) (w w' : world) (records : list json) :
  clean (files w) ->
  run_all values w = (Ok records, w') ->
  files w' !! summary_name = Some (Text (dumps (JArr records)))
  /\ exists logs, reread w' = (Ok logs, w') /\ logs ≡ₚ records.
Proof.
  intros Hclean E.
  apply run_all_ok in E as (w1 & Hinv & Hdir & Hfiles).
  split; [rewrite Hfiles; apply lookup_insert_eq|].
  pose proof (NoDup_identifiers (length values)) as Hnd.
  rewrite <- expected_calls_snd in Hnd.
  pose proof (invocations_artifacts _ _ _ _ Hinv Hnd) as Hart.
  change (map snd (expected_calls values)) with (snd <$> expected_calls values) in Hnd.
  pose proof (invocations_records _ _ _ _ Hinv) as Hrec.
  set (calls := expected_calls values) in *.
  set (g := fun name => match read_log (files w') name with Ok j => j | Raise _ => JNull end).
  assert (Hg : Forall2 (fun call r => read_log (files w') (log_name call.2) = Ok r)
                       calls records).
  { apply (logs_read_back (files w1)); [|exact Hart | exact Hrec].
    intros id. rewrite Hfiles. apply lookup_insert_ne, not_eq_sym, log_name_not_summary. }
  assert (Hnames : log_names (dir_order (dom (files w')))
                   ≡ₚ log_name <$> (snd <$> calls)).
  { apply NoDup_Permutation.
    - apply NoDup_filter. rewrite dir_order_perm. apply NoDup_elements.
    - apply NoDup_fmap; [intros a b; apply log_name_inj | exact Hnd].
    - intros name. rewrite elem_of_log_names, dir_order_perm, elem_of_elements, elem_of_dom.
      rewrite Hfiles, list_elem_of_fmap. split.
      + intros [Hlog Hsome].
        rewrite lookup_insert_is_Some in Hsome.
        destruct Hsome as [<- | [_ Hsome]]; [discriminate|].
        apply (invocations_entries _ _ _ _ name Hinv) in Hsome
          as [Hold | (call & Hc & [-> | ->])].
        * apply Hclean in Hold. congruence.
        * exists call.2. split; [reflexivity|]. apply list_elem_of_fmap. now exists call.
        * rewrite is_log_name_model in Hlog. discriminate.
      + intros (id & -> & Hid). split; [apply is_log_name_log|].
        apply list_elem_of_fmap in Hid as (call & -> & Hc).
        rewrite lookup_insert_is_Some. right. split; [apply not_eq_sym, log_name_not_summary|].
        apply (invocations_entries _ _ _ _ _ Hinv). right. exists call. split; [exact Hc | now left]. }
  exists (g <$> log_names (dir_order (dom (files w')))). split.
  - rewrite reread_spec, Hdir. f_equal. apply list_comp_total.
    intros name Hin. rewrite Hnames in Hin.
    apply list_elem_of_fmap in Hin as (id & -> & Hid).
    apply list_elem_of_fmap in Hid as (call & -> & Hc).
    apply list_elem_of_lookup in Hc as [i Hi].
    destruct (Forall2_lookup_l _ _ _ _ _ Hg Hi) as (r & _ & Hr).
    unfold g. now rewrite Hr.
  - rewrite Hnames, <- !list_fmap_compose.
    erewrite (Forall2_map_eq (g ∘ log_name ∘ snd)); [reflexivity|].
    eapply Forall2_impl; [exact Hg|]. intros call r Hr. unfold g, compose. now rewrite Hr.
Qed.

(** C8. When the runner raises in an experiment of the loop, the
    exception leaves the loop and the script; the summary is not written;
    the log and the model of every experiment completed before are in the
    directory as they were written. *)
Theorem failure_leaves_partial_progress (values : list Z) (k : nat) (n : Z)
    (w w1 w' : world) (done : list json) (e : exn) :
  values !! k = Some n ->
  invocations w (expected_calls (take k values)) done w1 ->
  run_experiment n (Z.of_nat k + 1) w1 = (Raise e, w') ->
  run_all values w = (Raise e, w')
  /\ (forall w0, ensure_dir w0 = (Ok tt, w) -> main values w0 = (Raise e, w'))
  /\ files w' !! summary_name = files w !! summary_name
  /\ Forall2 (fun call record =>
                files w' !! log_name call.2 = Some (Text (dumps record))
                /\ exists model, files w' !! model_name call.2 = Some (Pickle model))
             (expected_calls (take k values)) done.
Proof.
  intros Hk Hinv Hrun.
  assert (Hlen : length (take k values) = k).
  { apply length_take_le. apply lookup_lt_Some in Hk. lia. }
  assert (Hloop : driver_loop (enumerate values) [] w = (Raise e, w')).
  { rewrite <- (take_drop_middle values k n Hk), enumerate_middle, Hlen.
    eapply driver_loop_interrupted; [|exact Hrun].
    rewrite calls_of_enumerate. exact Hinv. }
  assert (Hall : run_all values w = (Raise e, w')).
  { unfold run_all. now apply bind_fail. }
  apply run_experiment_raise in Hrun as (Hfiles & _ & _).
  split; [exact Hall|]. split.
  { intros w0 Hdir. unfold main. erewrite bind_step by exact Hdir. now apply bind_fail. }
  split.
  { rewrite Hfiles. apply (invocations_frame _ _ _ _ _ Hinv).
    intros call _. apply summary_not_artifact. }
  rewrite Hfiles. apply (invocations_artifacts _ _ _ _ Hinv).
  rewrite expected_calls_snd. apply NoDup_identifiers.
Qed.

(** C9. A call of the runner with identifier k leaves every entry other
    than log_k.json and model_k.pkl as it was; when it returns, both
    entries hold what this call wrote, whatever they held before. No part
    of the script removes an entry. *)
Theorem runner_frame (n k : Z) (w w' : world) (res : result json) :
  run_experiment n k w = (res, w') ->
  entry_of_path (log_path k) = Some (log_name k)
  /\ entry_of_path (model_path k) = Some (model_name k)
  /\ (forall name, name <> log_name k -> name <> model_name k ->
        files w' !! name = files w !! name)
  /\ (forall r, res = Ok r ->
        files w' !! log_name k = Some (Text (dumps r))
        /\ exists model, files w' !! model_name k = Some (Pickle model))
  /\ (forall values, keeps_entries (main values)).
Proof.
  intros E. split; [reflexivity|]. split; [reflexivity|]. split.
  { intros name Hl Hm. apply (run_experiment_frame n k _ _ _ _ E).
    intros [-> | ->]; congruence. }
  split.
  { intros r ->.
    apply run_experiment_ok in E as (data & train & test & model & a & g1 & g2 & E).
    destruct E as (_ & _ & _ & _ & _ & -> & ->). cbn [files]. split.
    - rewrite lookup_insert_ne by (apply not_eq_sym, log_name_not_model).
      apply lookup_insert_eq.
    - exists model. apply lookup_insert_eq. }
  apply keeps_entries_main.
Qed.

(** C10. The filter of the aggregator rejects the name of the summary
    and the name of every model, so the loop over the listing passes over
    them and they are never among the names it reads. *)
Theorem filter_rejects_summary_and_models :
  entry_of_path summary_path = Some summary_name
  /\ is_log_name summary_name = false
  /\ (forall id, entry_of_path (model_path id) = Some (model_name id)
                 /\ is_log_name (model_name id) = false)
  /\ (forall name names logs,
        name = summary_name \/ (exists id, name = model_name id) ->
        load_logs (name :: names) logs = load_logs names logs)
  /\ (forall names, (summary_name ∉ log_names names)
                    /\ (forall id, model_name id ∉ log_names names)).
Proof.
  split; [reflexivity|]. split; [reflexivity|]. split; [intros id; split; reflexivity|].
  split.
  - intros name names logs [-> | [id ->]]; reflexivity.
  - intros names. split; [|intros id]; intros Hin;
      apply elem_of_log_names in Hin as [Hin _]; discriminate.
Qed.

End Claims.

(** * The statements on the small instance *)

Section ToyFacts.
Local Existing Instances Toy.float Toy.sklearn Toy.os Toy.seaborn.

Lemma toy_float_repr : @PyFloatRepr Toy.float.
Proof. split; intros []; reflexivity. Qed.

Lemma toy_float_round : @PyFloatRound Toy.float.
Proof.
  split; [|reflexivity|reflexivity].
  intros a b Hab. simpl.
  destruct (Qle_bool (1 # 2) a) eqn:Ha, (Qle_bool (1 # 2) b) eqn:Hb;
    try (unfold Qle; simpl; lia).
  apply Qle_bool_iff in Ha.
  assert (Hb' : Qle_bool (1 # 2) b = true) by (apply Qle_bool_iff; now apply (Qle_trans _ a)).
  congruence.
Qed.

Lemma toy_listing : @OSListing Toy.os.
Proof. split. intros names. reflexivity. Qed.

Lemma once_returned :
  run_experiment 10 1 Toy.world1 = (Ok (Toy.value JNull Toy.once), Toy.once.2).
Proof. vm_compute. reflexivity. Qed.

Lemma looped_returned :
  driver_loop (enumerate [10; 5; 3]) [] Toy.world1
  = (Ok (Toy.value [] Toy.looped), Toy.looped.2).
Proof. vm_compute. reflexivity. Qed.

Lemma first_run_returned :
  run_all [10; 5; 3] Toy.world1 = (Ok (Toy.value [] Toy.first_run), Toy.first_run.2).
Proof. vm_compute. reflexivity. Qed.

Lemma second_run_returned :
  run_all [4] Toy.first_run.2 = (Ok (Toy.value [] Toy.second_run), Toy.second_run.2).
Proof. vm_compute. reflexivity. Qed.

Lemma second_table_returned :
  aggregate Toy.second_run.2 = (Ok (Toy.value [] Toy.second_table), Toy.second_table.2).
Proof. vm_compute. reflexivity. Qed.

Lemma before_failure_returned :
  driver_loop (enumerate [10]) [] Toy.world1
  = (Ok (Toy.value [] Toy.before_failure), Toy.before_failure.2).
Proof. vm_compute. reflexivity. Qed.

Lemma failure_raised :
  run_experiment 0 (Z.of_nat 1 + 1) Toy.before_failure.2 = (Raise ValueError, Toy.failure.2).
Proof. vm_compute. reflexivity. Qed.

Lemma stale_log_kept :
  files Toy.first_run.2 !! "log_3.json" = Some (Text Toy.stale_text).
Proof. vm_compute. reflexivity. Qed.

Lemma stale_log_not_rewritten : "log_3.json" ∉ map log_name (identifiers (length [4])).
Proof.
  change (map log_name (identifiers (length [4]))) with [log_name 1].
  apply not_elem_of_cons. split; [|apply not_elem_of_nil].
  intros E. vm_compute in E. discriminate E.
Qed.

Lemma empty_is_clean : clean (files Toy.world1).
Proof. intros name [x Hx]. simpl in Hx. rewrite lookup_empty in Hx. discriminate Hx. Qed.

Lemma before_failure_invocations :
  invocations Toy.world1 (expected_calls (take 1 [10; 0; 3]))
              (Toy.value [] Toy.before_failure) Toy.before_failure.2.
Proof.
  destruct (driver_loop_ok _ _ _ _ _ before_failure_returned) as (rs & E & Hinv).
  simpl in E. rewrite <- E in Hinv. exact Hinv.
Qed.

Lemma driver_loop_calls_witness :
  driver_loop (enumerate [10; 5; 3]) [] Toy.world1
  = (Ok (Toy.value [] Toy.looped), Toy.looped.2)
  /\ invocations Toy.world1 (expected_calls [10; 5; 3]) (Toy.value [] Toy.looped) Toy.looped.2.
Proof.
  split; [exact looped_returned|].
  exact (proj1 (driver_loop_calls [10; 5; 3] Toy.world1 Toy.looped.2
                  (Toy.value [] Toy.looped) looped_returned)).
Defined.

Lemma log_roundtrip_witness :
  run_experiment 10 1 Toy.world1 = (Ok (Toy.value JNull Toy.once), Toy.once.2)
  /\ exists a,
       Toy.value JNull Toy.once = log_record 1 10 a
       /\ load_logs [log_name 1] [] Toy.once.2 = (Ok [Toy.value JNull Toy.once], Toy.once.2)
       /\ table_row (Toy.value JNull Toy.once)
          = Ok (JObj [("experiment_id", JInt 1); ("n_estimators", JInt 10);
                      ("accuracy", JFloat a)]).
Proof.
  split; [exact once_returned|].
  destruct (log_roundtrip (Hrepr := toy_float_repr) 10 1 Toy.world1 Toy.once.2
              (Toy.value JNull Toy.once) once_returned)
    as (a & Hr & _ & _ & Hload & Hrow).
  exists a. split; [exact Hr|]. split; [exact Hload | exact Hrow].
Defined.

Lemma summary_artifact_witness :
  run_all [10; 5; 3] Toy.world1 = (Ok (Toy.value [] Toy.first_run), Toy.first_run.2)
  /\ files Toy.first_run.2 !! summary_name
     = Some (Text (dumps (JArr (Toy.value [] Toy.first_run))))
  /\ loads (dumps (JArr (Toy.value [] Toy.first_run))) = Ok (JArr (Toy.value [] Toy.first_run))
  /\ length (Toy.value [] Toy.first_run) = length [10; 5; 3].
Proof.
  split; [exact first_run_returned|].
  destruct (summary_artifact (Hrepr := toy_float_repr) [10; 5; 3] Toy.world1
              Toy.first_run.2 (Toy.value [] Toy.first_run) first_run_returned)
    as (_ & _ & Hfile & Hloads & Hlen & _).
  split; [exact Hfile|]. split; [exact Hloads | exact Hlen].
Defined.

Lemma aggregator_reads_the_directory_witness :
  exists log row,
    loads Toy.stale_text = Ok log
    /\ table_row log = Ok row
    /\ row ∈ Toy.value [] Toy.second_table.
Proof.
  exact (proj2 (aggregator_reads_the_directory (Hlisting := toy_listing))
           [4] Toy.first_run.2 (Toy.value [] Toy.second_run) Toy.second_run.2
           (Toy.value [] Toy.second_table) Toy.second_table.2 "log_3.json" Toy.stale_text
           second_run_returned second_table_returned stale_log_kept eq_refl
           stale_log_not_rewritten).
Defined.

Lemma accuracy_in_unit_interval_witness :
  run_experiment 10 1 Toy.world1 = (Ok (Toy.value JNull Toy.once), Toy.once.2)
  /\ exists a, getitem (Toy.value JNull Toy.once) "metrics" = Ok (JObj [("accuracy", JFloat a)])
       /\ (0 <= Q_of_float a)%Q /\ (Q_of_float a <= 1)%Q.
Proof.
  split; [exact once_returned|].
  exact (accuracy_in_unit_interval (Hround := toy_float_round) 10 1 Toy.world1
           Toy.once.2 (Toy.value JNull Toy.once) once_returned).
Defined.

Lemma log_artifact_shape_witness :
  run_experiment 10 1 Toy.world1 = (Ok (Toy.value JNull Toy.once), Toy.once.2)
  /\ exists text a,
       files Toy.once.2 !! log_name 1 = Some (Text text)
       /\ loads text
          = Ok (JObj [("experiment_id", JInt 1);
                      ("parameters", JObj [("n_estimators", JInt 10)]);
                      ("metrics", JObj [("accuracy", JFloat a)])]).
Proof.
  split; [exact once_returned|].
  exact (proj2 (log_artifact_shape (Hrepr := toy_float_repr) 10 1 Toy.world1
                  Toy.once.2 (Toy.value JNull Toy.once) once_returned)).
Defined.

Lemma reread_logs_are_the_records_witness :
  clean (files Toy.world1)
  /\ run_all [10; 5; 3] Toy.world1 = (Ok (Toy.value [] Toy.first_run), Toy.first_run.2)
  /\ exists logs, reread Toy.first_run.2 = (Ok logs, Toy.first_run.2)
                  /\ logs ≡ₚ Toy.value [] Toy.first_run.
Proof.
  split; [exact empty_is_clean|]. split; [exact first_run_returned|].
  exact (proj2 (reread_logs_are_the_records (Hrepr := toy_float_repr)
                  (Hlisting := toy_listing) [10; 5; 3] Toy.world1 Toy.first_run.2
                  (Toy.value [] Toy.first_run) empty_is_clean first_run_returned)).
Defined.

Lemma failure_leaves_partial_progress_witness :
  [10; 0; 3] !! 1%nat = Some 0
  /\ run_experiment 0 (Z.of_nat 1 + 1) Toy.before_failure.2 = (Raise ValueError, Toy.failure.2)
  /\ run_all [10; 0; 3] Toy.world1 = (Raise ValueError, Toy.failure.2)
  /\ files Toy.failure.2 !! summary_name = files Toy.world1 !! summary_name.
Proof.
  split; [reflexivity|]. split; [exact failure_raised|].
  destruct (failure_leaves_partial_progress [10; 0; 3] 1 0 Toy.world1 Toy.before_failure.2
              Toy.failure.2 (Toy.value [] Toy.before_failure) ValueError eq_refl
              before_failure_invocations failure_raised)
    as (Hall & _ & Hsummary & _).
  split; [exact Hall | exact Hsummary].
Defined.

Lemma runner_frame_witness :
  run_experiment 10 1 Toy.world1 = (Ok (Toy.value JNull Toy.once), Toy.once.2)
  /\ (forall name, name <> log_name 1 -> name <> model_name 1 ->
        files Toy.once.2 !! name = files Toy.world1 !! name)
  /\ files Toy.once.2 !! log_name 1 = Some (Text (dumps (Toy.value JNull Toy.once))).
Proof.
  split; [exact once_returned|].
  destruct (runner_frame 10 1 Toy.world1 Toy.once.2 (Ok (Toy.value JNull Toy.once))
              once_returned)
    as (_ & _ & Hframe & Hwritten & _).
  split; [exact Hframe|]. exact (proj1 (Hwritten _ eq_refl)).
Defined.

End ToyFacts.

(** * Further properties of the script *)

(** ** The directory *)

Section Directory.
Context `{PyFloat} `{Sklearn} `{OS} `{!Seaborn}.

Lemma keeps_directory_bind {A B} (m : M A) (k : A -> M B) :
  keeps_directory m -> (forall a, keeps_directory (k a)) -> keeps_directory (bind m k).
Proof.
  intros Hm Hk w r w' E Hd. unfold bind in E.
  destruct (m w) as [[a|e] w1] eqn:Em.
  - exact (Hk _ _ _ _ E (Hm _ _ _ Em Hd)).
  - injection E as <- <-. exact (Hm _ _ _ Em Hd).
Qed.

Lemma keeps_directory_ret {A} (a : A) : keeps_directory (ret a).
Proof. intros w r w' [= <- <-] Hd. exact Hd. Qed.

Lemma keeps_directory_try {A} (r : result A) : keeps_directory (try r).
Proof. intros w r' w' [= <- <-] Hd. exact Hd. Qed.

Lemma keeps_directory_randomized {A} (f : entropy -> result A * entropy) :
  keeps_directory (randomized f).
Proof.
  intros w r w'. unfold randomized. destruct (f (rng w)). intros [= <- <-] Hd. exact Hd.
Qed.

Lemma keeps_directory_print (line : string) : keeps_directory (print line).
Proof. intros w r w' [= <- <-] Hd. exact Hd. Qed.

Lemma keeps_directory_write_file (path : string) (content : file) :
  keeps_directory (write_file path content).
Proof.
  intros w r w'. unfold write_file.
  destruct (entry_of_path path) as [name|]; [|intros [= <- <-] Hd; exact Hd].
  destruct (dir_exists w); intros [= <- <-] Hd; [reflexivity | discriminate].
Qed.

Lemma keeps_directory_read_text (path : string) : keeps_directory (read_text path).
Proof.
  intros w r w'. unfold read_text.
  destruct (entry_of_path path) as [name|]; [|intros [= <- <-] Hd; exact Hd].
  destruct (files w !! name) as [[s|m]|]; intros [= <- <-] Hd; exact Hd.
Qed.

Lemma keeps_directory_listdir : keeps_directory listdir.
Proof.
  intros w r w'. unfold listdir.
  destruct (dir_exists w) eqn:Hx; intros [= <- <-] Hd; congruence.
Qed.

Lemma keeps_directory_show (df : list json) : keeps_directory (show df).
Proof.
  intros w r w'. unfold show. destruct (lineplot df); intros [= <- <-] Hd; exact Hd.
Qed.

Lemma keeps_directory_run_experiment (n id : Z) : keeps_directory (run_experiment n id).
Proof.
  unfold run_experiment.
  apply keeps_directory_bind; [apply keeps_directory_try | intros data].
  apply keeps_directory_bind; [apply keeps_directory_randomized | intros [train test]].
  apply keeps_directory_bind; [apply keeps_directory_randomized | intros model].
  apply keeps_directory_bind; [apply keeps_directory_try | intros a].
  apply keeps_directory_bind; [apply keeps_directory_print | intros _].
  apply keeps_directory_bind; [apply keeps_directory_write_file | intros _].
  apply keeps_directory_bind; [apply keeps_directory_write_file | intros _].
  apply keeps_directory_ret.
Qed.

Lemma keeps_directory_driver_loop (items : list (nat * Z)) (experiments : list json) :
  keeps_directory (driver_loop items experiments).
Proof.
  revert experiments. induction items as [|[i n] items IH]; intros experiments; simpl.
  - apply keeps_directory_ret.
  - apply keeps_directory_bind; [apply keeps_directory_run_experiment | intros r; apply IH].
Qed.

Lemma keeps_directory_load_logs (names : list string) (logs : list json) :
  keeps_directory (load_logs names logs).
Proof.
  revert logs. induction names as [|name names IH]; intros logs; simpl.
  - apply keeps_directory_ret.
  - destruct (is_log_name name); [|apply IH].
    apply keeps_directory_bind; [apply keeps_directory_read_text | intros text].
    apply keeps_directory_bind; [apply keeps_directory_try | intros log; apply IH].
Qed.

Lemma keeps_directory_after_ensure_dir (values : list Z) :
  keeps_directory (_ <- run_all values ;; df <- aggregate ;; show df).
Proof.
  apply keeps_directory_bind; [|intros _].
  { unfold run_all.
    apply keeps_directory_bind; [apply keeps_directory_driver_loop | intros experiments].
    apply keeps_directory_bind; [apply keeps_directory_write_file | intros _].
    apply keeps_directory_ret. }
  apply keeps_directory_bind; [|intros df; apply keeps_directory_show].
  unfold aggregate, reread.
  apply keeps_directory_bind; [|intros logs; apply keeps_directory_try].
  apply keeps_directory_bind; [apply keeps_directory_listdir | intros names].
  apply keeps_directory_load_logs.
Qed.

Lemma ensure_dir_spec (w : world) :
  ensure_dir w = (Ok tt, World (rng w) true (files w) (stdout w) (figures w)).
Proof.
  unfold ensure_dir, bind, path_exists, makedirs, ret.
  destruct w as [g [] f o c]; reflexivity.
Qed.


(** X1. Without the directory, a call of the runner whose library calls
    succeed prints its line and then raises [FileNotFoundError] for the
    path of its log: nothing is written and the directory is still
    absent. *)
Theorem runner_needs_directory (n id : Z) (w : world)
    (data train test : list (features * label)) (model : Model) (g1 g2 : entropy) :
  load_iris = Ok data ->
  train_test_split data (rng w) = (Ok (train, test), g1) ->
  test <> [] ->
  fit n train g1 = (Ok model, g2) ->
  dir_exists w = false ->
  exists a,
    score model (map fst test) (map snd test) = Ok a
    /\ run_experiment n id w
       = (Raise (FileNotFoundError (log_path id)),
          World g2 false (files w) (stdout w ++ [report_line id n a]) (figures w)).
Proof.
  intros Hload Hsplit Htest Hfit Hdir.
  unfold run_experiment, bind, try, randomized, print, write_file, ret.
  rewrite entry_of_log_path, Hload, Hsplit.
  cbn [rng dir_exists files stdout figures]. rewrite Hfit.
  cbn [rng dir_exists files stdout figures].
  unfold score. destruct test as [|x test]; [congruence|].
  cbn [map]. cbn [rng dir_exists files stdout figures]. rewrite Hdir.
  eexists. split; reflexivity.
Qed.

End Directory.

(** ** The names of the files *)

Lemma prefix_inv (p s : string) :
  String.prefix p s = true -> exists rest, s = p +:+ rest.
Proof.
  revert s. induction p as [|c p IH]; intros s E.
  - now exists s.
  - destruct s as [|d s]; [discriminate|]. simpl in E.
    destruct (ascii_dec c d) as [->|]; [|discriminate].
    destruct (IH s E) as [rest ->]. now exists rest.
Qed.

Lemma substring_split (n : nat) (s : string) :
  (n <= String.length s)%nat ->
  s = String.substring 0 n s +:+ String.substring n (String.length s - n) s.
Proof.
  revert n. induction s as [|c s IH]; intros n Hn.
  - destruct n; [reflexivity | simpl in Hn; lia].
  - destruct n as [|n].
    + simpl. f_equal. clear. induction s as [|d s IHs]; simpl; [reflexivity | now f_equal].
    + simpl. f_equal. apply IH. simpl in Hn. lia.
Qed.

Lemma endswith_inv (s p : string) :
  endswith s p = true -> exists front, s = front +:+ p.
Proof.
  unfold endswith. intros E. apply andb_true_iff in E as [Hlen E].
  apply Nat.leb_le in Hlen. apply String.eqb_eq in E.
  exists (String.substring 0 (String.length s - String.length p) s).
  assert (Hle : (String.length s - String.length p <= String.length s)%nat) by lia.
  pose proof (substring_split _ s Hle) as Hsp.
  replace (String.length s - (String.length s - String.length p))%nat
    with (String.length p) in Hsp by lia.
  rewrite E in Hsp. exact Hsp.
Qed.

(** X3. The filter of the aggregator accepts exactly the names made of
    [log_], any text (also none) and [.json]: every such name in the
    directory is read, whoever wrote it. *)
Theorem is_log_name_iff (name : string) :
  is_log_name name = true <-> exists middle, name = "log_" +:+ middle +:+ ".json".
Proof.
  unfold is_log_name. split.
  - intros E. apply andb_true_iff in E as [Hs He].
    apply endswith_inv in He as [front ->].
    apply prefix_inv in Hs as [rest Hs].
    destruct front as [|c1 [|c2 [|c3 [|c4 middle]]]]; try discriminate Hs.
    injection Hs as -> -> -> -> _. now exists middle.
  - intros [middle ->]. apply andb_true_intro. split.
    + apply (prefix_app "log_").
    + rewrite <- sapp_assoc. apply endswith_app.
Qed.

(** X4. Experiments with different identifiers have different log paths
    and different model paths; no log path is a model path; neither is
    the path of the summary. *)
Theorem artifact_paths_distinct :
  (forall a b, log_path a = log_path b -> a = b)
  /\ (forall a b, model_path a = model_path b -> a = b)
  /\ (forall a b, log_path a <> model_path b)
  /\ (forall a, log_path a <> summary_path /\ model_path a <> summary_path).
Proof.
  assert (Hentry : forall p q, p = q -> entry_of_path p = entry_of_path q) by congruence.
  split; [|split; [|split]].
  - intros a b E. apply Hentry in E. rewrite !entry_of_log_path in E.
    apply log_name_inj. congruence.
  - intros a b E. apply Hentry in E. rewrite !entry_of_model_path in E.
    apply model_name_inj. congruence.
  - intros a b E. apply Hentry in E. rewrite entry_of_log_path, entry_of_model_path in E.
    apply (log_name_not_model a b). congruence.
  - intros a. split; intros E; apply Hentry in E.
    + rewrite entry_of_log_path, entry_of_summary_path in E.
      apply (log_name_not_summary a). congruence.
    + rewrite entry_of_model_path, entry_of_summary_path in E.
      apply (model_name_not_summary a). congruence.
Qed.

(** ** The table *)

Section Table.
Context `{PyFloat} `{Sklearn} `{OS} `{!Seaborn}.

(** X5. A row is built exactly from a dictionary that has the key
    "experiment_id", a dictionary with the key "n_estimators" under
    "parameters" and a dictionary with the key "accuracy" under "metrics";
    other keys are ignored and the three values are taken as they are,
    whatever their type. Anything that is not a dictionary raises
    [TypeError]; a dictionary without "experiment_id" raises [KeyError]
    for it before any other key is looked up. *)
Theorem table_row_returns_iff (log row : json) :
  (table_row log = Ok row <->
   exists members e p n m a,
     log = JObj members
     /\ assoc_last "experiment_id" members = Some e
     /\ assoc_last "parameters" members = Some (JObj p)
     /\ assoc_last "n_estimators" p = Some n
     /\ assoc_last "metrics" members = Some (JObj m)
     /\ assoc_last "accuracy" m = Some a
     /\ row = JObj [("experiment_id", e); ("n_estimators", n); ("accuracy", a)])
  /\ ((forall members, log <> JObj members) -> table_row log = Raise TypeError)
  /\ (forall members, log = JObj members ->
        assoc_last "experiment_id" members = None ->
        table_row log = Raise (KeyError "experiment_id")).
Proof.
  split; [split|split].
  - unfold table_row, bind_result, getitem. intros E.
    destruct log as [| | | | | |members]; try discriminate E.
    destruct (assoc_last "experiment_id" members) as [e|] eqn:He; [|discriminate E].
    destruct (assoc_last "parameters" members) as [[| | | | | |p]|] eqn:Hp;
      try discriminate E.
    destruct (assoc_last "n_estimators" p) as [n|] eqn:Hn; [|discriminate E].
    destruct (assoc_last "metrics" members) as [[| | | | | |m]|] eqn:Hm;
      try discriminate E.
    destruct (assoc_last "accuracy" m) as [a|] eqn:Ha; [|discriminate E].
    injection E as <-. exists members, e, p, n, m, a. repeat split; assumption.
  - intros (members & e & p & n & m & a & -> & He & Hp & Hn & Hm & Ha & ->).
    unfold table_row, bind_result, getitem. now rewrite He, Hp, Hn, Hm, Ha.
  - intros Hno. destruct log as [| | | | | |members]; try reflexivity.
    now destruct (Hno members).
  - intros members -> He. unfold table_row, bind_result, getitem. now rewrite He.
Qed.

Lemma list_comp_returns {A B} (f : A -> result B) (l : list A) :
  (exists ys, list_comp f l = Ok ys) <-> Forall (fun x => exists y, f x = Ok y) l.
Proof.
  split.
  - intros [ys E]. apply list_comp_ok in E.
    induction E as [|x y l ys Hx _ IH]; constructor; eauto.
  - induction 1 as [|x l [y Hy] _ [ys IH]]; simpl; [now exists []|].
    rewrite Hy, IH. now exists (y :: ys).
Qed.

(** The aggregator changes nothing, whether it returns or raises. *)
Lemma aggregate_reads_only (w w' : world) (r : result (list json)) :
  aggregate w = (r, w') -> w' = w.
Proof. rewrite aggregate_spec. now intros [= _ <-]. Qed.


End Table.

(** ** Failures of the loop *)

Section Failures.
Context `{PyFloat} `{Sklearn} `{OS} `{!Seaborn}.

Lemma driver_loop_raise (items : list (nat * Z)) (acc : list json) (w w' : world)
    (e : exn) :
  driver_loop items acc w = (Raise e, w') ->
  exists k item done w1,
    items !! k = Some item
    /\ invocations w (calls_of_items (take k items)) done w1
    /\ run_experiment item.2 (Z.of_nat item.1 + 1) w1 = (Raise e, w').
Proof.
  revert acc w. induction items as [|[i n] items IH]; intros acc w E; simpl in E.
  - discriminate E.
  - apply bind_raise in E as [E | (r & w1 & Hrun & E)].
    + exists 0%nat, (i, n), [], w. split; [reflexivity|]. split; [constructor | exact E].
    + apply IH in E as (k & item & done & w2 & Hk & Hinv & Hfail).
      exists (S k), item, (r :: done), w2. split; [exact Hk|]. split; [|exact Hfail].
      simpl. econstructor; eassumption.
Qed.

Lemma enumerate_lookup (values : list Z) (k : nat) (item : nat * Z) :
  enumerate values !! k = Some item -> item.1 = k /\ values !! k = Some item.2.
Proof.
  unfold enumerate. intros E. apply lookup_zip_with_Some in E as (i & n & -> & Hi & Hn).
  apply lookup_seq in Hi as [-> _]. now split.
Qed.

Lemma enumerate_take (values : list Z) (k : nat) :
  take k (enumerate values) = enumerate (take k values).
Proof.
  unfold enumerate. generalize 0%nat as start. revert k.
  induction values as [|n values IH]; intros k start.
  - now destruct k.
  - destruct k as [|k]; [reflexivity|]. simpl. f_equal. apply IH.
Qed.


End Failures.

(** ** The directory after complete runs *)

Section CompleteRuns.
Context `{PyFloat} `{Sklearn} `{OS} `{!Seaborn}.

Lemma elem_of_identifiers (N : nat) (id : Z) :
  id ∈ identifiers N <-> 1 <= id <= Z.of_nat N.
Proof.
  unfold identifiers. change (map Z.of_nat (seq 1 N)) with (Z.of_nat <$> seq 1 N).
  rewrite list_elem_of_fmap. split.
  - intros (i & -> & Hi). apply elem_of_seq in Hi. lia.
  - intros Hid. exists (Z.to_nat id). split; [lia|]. apply elem_of_seq. lia.
Qed.

Lemma drop_identifiers (k N : nat) :
  drop k (identifiers N) = map Z.of_nat (seq (1 + k) (N - k)).
Proof.
  unfold identifiers. change (map Z.of_nat (seq 1 N)) with (Z.of_nat <$> seq 1 N).
  now rewrite <- fmap_drop, drop_seq.
Qed.

Lemma elem_of_drop_identifiers (k N : nat) (id : Z) :
  id ∈ drop k (identifiers N) <-> Z.of_nat k < id <= Z.of_nat N.
Proof.
  rewrite drop_identifiers.
  change (map Z.of_nat (seq (1 + k) (N - k))) with (Z.of_nat <$> seq (1 + k) (N - k)).
  rewrite list_elem_of_fmap. split.
  - intros (i & -> & Hi). apply elem_of_seq in Hi. lia.
  - intros Hid. exists (Z.to_nat id). split; [lia|]. apply elem_of_seq. lia.
Qed.

Lemma Forall2_calls_identifiers (P : Z -> json -> Prop) (values : list Z)
    (records : list json) :
  Forall2 (fun call record => P call.2 record) (expected_calls values) records ->
  Forall2 P (identifiers (length values)) records.
Proof.
  intros Hall. rewrite <- expected_calls_snd.
  change (map snd (expected_calls values)) with (snd <$> expected_calls values).
  now apply Forall2_fmap_l.
Qed.

Lemma Forall2_elem_of_l {A B} (P : A -> B -> Prop) (l : list A) (k : list B) :
  Forall2 P l k -> Forall2 (fun x y => x ∈ l /\ P x y) l k.
Proof.
  induction 1 as [|x y l k Hxy _ IH]; constructor.
  - split; [now left | exact Hxy].
  - eapply Forall2_impl; [exact IH|]. intros a b [Ha Hab]. split; [now right | exact Hab].
Qed.

Lemma Forall2_both {A B} (P Q : A -> B -> Prop) (l : list A) (k : list B) :
  Forall2 P l k -> Forall2 Q l k -> Forall2 (fun x y => P x y /\ Q x y) l k.
Proof.
  induction 1 as [|x y l k Hxy _ IH]; intros HQ; [constructor|].
  apply Forall2_cons_1 in HQ as [Hq HQ]. constructor; [now split | exact (IH HQ)].
Qed.

(** The entries of the directory after a run of all experiments. *)
Lemma run_all_entries (values : list Z) (w w' : world) (records : list json)
    (name : string) :
  run_all values w = (Ok records, w') ->
  is_Some (files w' !! name) <->
  is_Some (files w !! name) \/ name = summary_name
  \/ exists id, id ∈ identifiers (length values) /\ artifact_of id name.
Proof.
  intros E. apply run_all_ok in E as (w1 & Hinv & _ & ->).
  rewrite lookup_insert_is_Some, (invocations_entries _ _ _ _ name Hinv). split.
  - intros [<- | [_ [Hold | (call & Hc & Ha)]]]; [now right; left | now left |].
    right; right. exists call.2. split; [|exact Ha].
    rewrite <- expected_calls_snd. apply list_elem_of_fmap. now exists call.
  - intros [Hold | [-> | (id & Hid & Ha)]].
    + destruct (decide (summary_name = name)); [now left | right; split; [assumption|now left]].
    + now left.
    + right. split; [intros <-; exact (summary_not_artifact id Ha)|]. right.
      rewrite <- expected_calls_snd in Hid.
      apply list_elem_of_fmap in Hid as (call & -> & Hc). now exists call.
Qed.

(** What a run of all experiments leaves alone. *)
Lemma run_all_frame (values : list Z) (w w' : world) (records : list json)
    (name : string) :
  run_all values w = (Ok records, w') ->
  name <> summary_name ->
  (forall id, id ∈ identifiers (length values) -> ~ artifact_of id name) ->
  files w' !! name = files w !! name.
Proof.
  intros E Hs Hname. apply run_all_ok in E as (w1 & Hinv & _ & ->).
  rewrite lookup_insert_ne by congruence.
  apply (invocations_frame _ _ _ _ name Hinv).
  intros call Hc. apply Hname. rewrite <- expected_calls_snd.
  apply list_elem_of_fmap. now exists call.
Qed.

(** X8. After a run of all experiments, whatever the directory held
    before: for each identifier 1..N the entry of its log holds the text
    of the record that the runner returned for it and decodes to that
    record, the entry of its model holds a model, and the summary decodes
    to the array of the same records in the same order. *)
Theorem complete_run_artifacts `{Hrepr : !PyFloatRepr} (values : list Z) (w w' : world)
    (records : list json) :
  run_all values w = (Ok records, w') ->
  Forall2 (fun id record =>
             files w' !! log_name id = Some (Text (dumps record))
             /\ read_log (files w') (log_name id) = Ok record
             /\ exists model, files w' !! model_name id = Some (Pickle model))
          (identifiers (length values)) records
  /\ read_log (files w') summary_name = Ok (JArr records).
Proof.
  intros E. apply run_all_ok in E as (w1 & Hinv & _ & Hfiles).
  pose proof (NoDup_identifiers (length values)) as Hnd.
  rewrite <- expected_calls_snd in Hnd.
  pose proof (invocations_artifacts _ _ _ _ Hinv Hnd) as Hart.
  pose proof (invocations_records _ _ _ _ Hinv) as Hrec.
  assert (Hlog : forall id, files w' !! log_name id = files w1 !! log_name id).
  { intros id. rewrite Hfiles.
    apply lookup_insert_ne, not_eq_sym, log_name_not_summary. }
  assert (Hmodel : forall id, files w' !! model_name id = files w1 !! model_name id).
  { intros id. rewrite Hfiles.
    apply lookup_insert_ne, not_eq_sym, model_name_not_summary. }
  pose proof (logs_read_back (files w1) (files w') _ _ Hlog Hart Hrec) as Hread.
  split.
  - apply Forall2_calls_identifiers.
    eapply Forall2_impl; [exact (Forall2_both _ _ _ _ Hart Hread)|].
    intros call r [[Hl Hm] Hr]. rewrite Hlog, Hmodel. auto.
  - unfold read_log. rewrite Hfiles, lookup_insert_eq. apply loads_records.
    clear -Hrec. induction Hrec as [|call r calls rs (a & ->) _ IH]; constructor; eauto.
Qed.

(** X9. A run of all experiments adds to the directory the summary and
    the log and the model of each identifier 1..N, and nothing else; from
    an empty directory it leaves exactly 2N+1 entries. *)
Theorem complete_run_directory (values : list Z) (w w' : world) (records : list json) :
  run_all values w = (Ok records, w') ->
  (forall name,
     is_Some (files w' !! name) <->
     is_Some (files w !! name) \/ name = summary_name
     \/ exists id, 1 <= id <= Z.of_nat (length values)
                   /\ (name = log_name id \/ name = model_name id))
  /\ (files w = ∅ -> size (dom (files w')) = (2 * length values + 1)%nat).
Proof.
  intros E.
  assert (Hentries : forall name,
     is_Some (files w' !! name) <->
     is_Some (files w !! name) \/ name = summary_name
     \/ exists id, 1 <= id <= Z.of_nat (length values)
                   /\ (name = log_name id \/ name = model_name id)).
  { intros name. rewrite (run_all_entries _ _ _ _ name E).
    split; (intros [Hold | [Hs | (id & Hid & Ha)]]; [now left | now right; left |]);
      right; right; exists id; (split; [now apply elem_of_identifiers | exact Ha]). }
  split; [exact Hentries|].
  intros Hempty. set (ids := identifiers (length values)).
  assert (Hdom : dom (files w')
                 ≡ {[summary_name]} ∪ (list_to_set (log_name <$> ids)
                                       ∪ list_to_set (model_name <$> ids))).
  { intros name. rewrite elem_of_dom, Hentries, Hempty, lookup_empty.
    rewrite elem_of_union, elem_of_singleton, elem_of_union, !elem_of_list_to_set,
      !list_elem_of_fmap.
    split.
    - intros [[x Hx] | [-> | (id & Hid & [-> | ->])]]; [discriminate Hx | now left | |];
        right; [left | right]; exists id; (split; [reflexivity|]);
        now apply elem_of_identifiers.
    - intros [-> | [(id & -> & Hid) | (id & -> & Hid)]]; [now right; left | |];
        right; right; exists id; (split; [now apply elem_of_identifiers|]); auto. }
  rewrite Hdom, size_union, size_singleton, size_union.
  - rewrite !size_list_to_set, !length_fmap.
    + unfold ids, identifiers. rewrite length_map, length_seq. lia.
    + apply NoDup_fmap; [intros a b; apply model_name_inj | apply NoDup_identifiers].
    + apply NoDup_fmap; [intros a b; apply log_name_inj | apply NoDup_identifiers].
  - intros name Hl Hm. apply elem_of_list_to_set, list_elem_of_fmap in Hl as (a & -> & _).
    apply elem_of_list_to_set, list_elem_of_fmap in Hm as (b & Hm & _).
    exact (log_name_not_model a b Hm).
  - intros name Hs Hrest. apply elem_of_singleton in Hs as ->.
    apply elem_of_union in Hrest as [Hl | Hm].
    + apply elem_of_list_to_set, list_elem_of_fmap in Hl as (a & Hl & _).
      exact (log_name_not_summary a (eq_sym Hl)).
    + apply elem_of_list_to_set, list_elem_of_fmap in Hm as (a & Hm & _).
      exact (model_name_not_summary a (eq_sym Hm)).
Qed.

(** X10. Running all experiments again in the directory that a run has
    left, with a list that is not longer, adds no entry: the directory has
    the same names as before, now with the artifacts of the second run
    under the identifiers it used. *)
Theorem rerun_adds_no_entry (values values' : list Z) (w w1 w2 : world)
    (records records' : list json) :
  run_all values w = (Ok records, w1) ->
  run_all values' w1 = (Ok records', w2) ->
  (length values' <= length values)%nat ->
  dom (files w2) = dom (files w1).
Proof.
  intros E1 E2 Hlen. apply set_eq. intros name.
  rewrite !elem_of_dom, (run_all_entries _ _ _ _ name E2).
  split; [|now left].
  intros [Hold | [-> | (id & Hid & Ha)]]; [exact Hold | |];
    apply (run_all_entries _ _ _ _ _ E1); right; [now left|].
  right. exists id. split; [|exact Ha].
  apply elem_of_identifiers. apply elem_of_identifiers in Hid. lia.
Qed.

End CompleteRuns.

(** ** The table after complete runs *)

Section TableOfRuns.
Context `{PyFloat} `{Sklearn} `{OS} `{!Seaborn}.

(** When the logs of the directory are those of known identifiers, the
    aggregator reads them all, in the order of the listing. *)
Lemma reread_known_logs `{!OSListing} (w : world) (ids : list Z) (records : list json) :
  dir_exists w = true ->
  NoDup ids ->
  (forall name, is_Some (files w !! name) -> is_log_name name = true ->
     exists id, id ∈ ids /\ name = log_name id) ->
  Forall2 (fun id record => read_log (files w) (log_name id) = Ok record) ids records ->
  exists logs, reread w = (Ok logs, w) /\ logs ≡ₚ records.
Proof.
  intros Hdir Hnd Hknown Hg.
  set (g := fun name => match read_log (files w) name with Ok j => j | Raise _ => JNull end).
  assert (Hnames : log_names (dir_order (dom (files w))) ≡ₚ log_name <$> ids).
  { apply NoDup_Permutation.
    - apply NoDup_filter. rewrite dir_order_perm. apply NoDup_elements.
    - apply NoDup_fmap; [intros a b; apply log_name_inj | exact Hnd].
    - intros name. rewrite elem_of_log_names, dir_order_perm, elem_of_elements, elem_of_dom.
      rewrite list_elem_of_fmap. split.
      + intros [Hlog Hsome]. destruct (Hknown name Hsome Hlog) as (id & Hid & ->).
        now exists id.
      + intros (id & -> & Hid). split; [apply is_log_name_log|].
        apply list_elem_of_lookup in Hid as [i Hi].
        destruct (Forall2_lookup_l _ _ _ _ _ Hg Hi) as (r & _ & Hr).
        unfold read_log in Hr. destruct (files w !! log_name id); [eauto | discriminate Hr]. }
  exists (g <$> log_names (dir_order (dom (files w)))). split.
  - rewrite reread_spec, Hdir. f_equal. apply list_comp_total.
    intros name Hin. rewrite Hnames in Hin.
    apply list_elem_of_fmap in Hin as (id & -> & Hid).
    apply list_elem_of_lookup in Hid as [i Hi].
    destruct (Forall2_lookup_l _ _ _ _ _ Hg Hi) as (r & _ & Hr).
    unfold g. now rewrite Hr.
  - rewrite Hnames, <- list_fmap_compose.
    erewrite (Forall2_map_eq (g ∘ log_name)); [reflexivity|].
    eapply Forall2_impl; [exact Hg|]. intros id r Hr. unfold g, compose. now rewrite Hr.
Qed.

Lemma Forall2_exists_l {A B} (P : A -> B -> Prop) (l : list A) (k : list B) :
  Forall2 P l k -> Forall (fun y => exists x, P x y) k.
Proof. induction 1; constructor; eauto. Qed.

Lemma records_of_run_all (values : list Z) (w w' : world) (records : list json) :
  run_all values w = (Ok records, w') ->
  Forall (fun r => exists id n a, r = log_record id n a) records
  /\ length records = length values.
Proof.
  intros E. apply run_all_ok in E as (w1 & Hinv & _ & _). split.
  - eapply Forall_impl; [exact (Forall2_exists_l _ _ _ (invocations_records _ _ _ _ Hinv))|].
    intros r (call & a & ->). eauto.
  - rewrite (invocations_length _ _ _ _ Hinv).
    rewrite <- (expected_calls_fst values) at 2. now rewrite length_map.
Qed.

(** When the logs of the directory are the records of known identifiers,
    the aggregator returns the table of their rows, in the order of the
    listing. *)
Lemma aggregate_known_logs `{!OSListing} (w : world) (ids : list Z) (records : list json) :
  dir_exists w = true ->
  NoDup ids ->
  (forall name, is_Some (files w !! name) -> is_log_name name = true ->
     exists id, id ∈ ids /\ name = log_name id) ->
  Forall2 (fun id record => read_log (files w) (log_name id) = Ok record) ids records ->
  Forall (fun r => exists id n a, r = log_record id n a) records ->
  exists df rows,
    aggregate w = (Ok df, w)
    /\ table_rows records = Ok rows
    /\ df ≡ₚ rows
    /\ length df = length records.
Proof.
  intros Hdir Hnd Hknown Hg Hrec.
  destruct (reread_known_logs w ids records Hdir Hnd Hknown Hg) as (logs & Hlogs & Hperm).
  set (g := fun r => match table_row r with Ok row => row | Raise _ => JNull end).
  assert (Hrows : forall l, Forall (fun r => exists id n a, r = log_record id n a) l ->
                            table_rows l = Ok (g <$> l)).
  { intros l Hl. apply list_comp_total. intros r Hr.
    rewrite Forall_forall in Hl. destruct (Hl r Hr) as (id & n & a & ->).
    unfold g. now rewrite table_row_log_record. }
  exists (g <$> logs), (g <$> records). split; [|split; [|split]].
  - unfold aggregate. rewrite (bind_step _ _ _ _ _ Hlogs). unfold try.
    rewrite Hrows; [reflexivity|]. now rewrite Hperm.
  - now apply Hrows.
  - now rewrite Hperm.
  - rewrite length_fmap. now apply Permutation_length.
Qed.

(** The logs of a run of all experiments, in the directory it leaves. *)
Lemma run_all_logs `{!PyFloatRepr} (values : list Z) (w w' : world) (records : list json) :
  run_all values w = (Ok records, w') ->
  Forall2 (fun id record => read_log (files w') (log_name id) = Ok record)
          (identifiers (length values)) records.
Proof.
  intros E. apply run_all_ok in E as (w1 & Hinv & _ & Hfiles).
  pose proof (NoDup_identifiers (length values)) as Hnd.
  rewrite <- expected_calls_snd in Hnd.
  apply (Forall2_calls_identifiers
           (fun id record => read_log (files w') (log_name id) = Ok record)).
  apply (logs_read_back (files w1)).
  - intros id. rewrite Hfiles. apply lookup_insert_ne, not_eq_sym, log_name_not_summary.
  - exact (invocations_artifacts _ _ _ _ Hinv Hnd).
  - exact (invocations_records _ _ _ _ Hinv).
Qed.

(** X11. From a directory without logs, a run for N1 values followed by
    a run for N2 values in the same directory leaves a table with
    max(N1, N2) rows on which the aggregator returns: the rows of the
    records of the second run, and the rows of the records of the first
    run whose identifiers the second run did not use. *)
Theorem table_after_two_runs `{Hrepr : !PyFloatRepr} `{Hlisting : !OSListing}
    (values1 values2 : list Z) (w w1 w2 : world) (records1 records2 : list json) :
  clean (files w) ->
  run_all values1 w = (Ok records1, w1) ->
  run_all values2 w1 = (Ok records2, w2) ->
  exists df rows,
    aggregate w2 = (Ok df, w2)
    /\ table_rows (records2 ++ drop (length values2) records1) = Ok rows
    /\ df ≡ₚ rows
    /\ length df = Nat.max (length values1) (length values2).
Proof.
  intros Hclean E1 E2.
  set (N1 := length values1). set (N2 := length values2).
  set (ids := identifiers N2 ++ drop N2 (identifiers N1)).
  set (records := records2 ++ drop N2 records1).
  pose proof (run_all_logs _ _ _ _ E1) as Hart1.
  pose proof (run_all_logs _ _ _ _ E2) as Hart2.
  destruct (records_of_run_all _ _ _ _ E1) as [Hrec1 Hlen1].
  destruct (records_of_run_all _ _ _ _ E2) as [Hrec2 Hlen2].
  assert (Hdir : dir_exists w2 = true).
  { now apply run_all_ok in E2 as (? & _ & Hd & _). }
  assert (Hnd : NoDup ids).
  { apply NoDup_app. split; [apply NoDup_identifiers|]. split.
    - intros id Hid Hdrop. apply elem_of_identifiers in Hid.
      apply elem_of_drop_identifiers in Hdrop. lia.
    - rewrite drop_identifiers. apply NoDup_fmap; [intros a b; lia | apply NoDup_seq]. }
  assert (Hknown : forall name, is_Some (files w2 !! name) -> is_log_name name = true ->
                     exists id, id ∈ ids /\ name = log_name id).
  { intros name Hsome Hname.
    assert (Hid : exists id, (id ∈ identifiers N1 \/ id ∈ identifiers N2)
                             /\ name = log_name id).
    { apply (run_all_entries _ _ _ _ name E2) in Hsome
        as [Hsome | [-> | (id & Hid & [-> | ->])]].
      - apply (run_all_entries _ _ _ _ name E1) in Hsome
          as [Hsome | [-> | (id & Hid & [-> | ->])]].
        + apply Hclean in Hsome. congruence.
        + discriminate Hname.
        + exists id. auto.
        + rewrite is_log_name_model in Hname. discriminate Hname.
      - discriminate Hname.
      - exists id. auto.
      - rewrite is_log_name_model in Hname. discriminate Hname. }
    destruct Hid as (id & Hid & ->). exists id. split; [|reflexivity].
    apply elem_of_app. rewrite elem_of_drop_identifiers.
    rewrite !elem_of_identifiers in Hid. rewrite elem_of_identifiers.
    fold N1 N2 in Hid |- *. lia. }
  assert (Hg : Forall2 (fun id record => read_log (files w2) (log_name id) = Ok record)
                       ids records).
  { apply Forall2_app; [exact Hart2|].
    apply (Forall2_drop _ _ _ N2) in Hart1. apply Forall2_elem_of_l in Hart1.
    eapply Forall2_impl; [exact Hart1|]. intros id r (Hid & Hr).
    unfold read_log in *.
    rewrite (run_all_frame _ _ _ _ (log_name id) E2); [exact Hr | |].
    - apply log_name_not_summary.
    - intros id' Hid' [Ha | Ha].
      + apply log_name_inj in Ha as ->.
        apply elem_of_drop_identifiers in Hid. apply elem_of_identifiers in Hid'.
        fold N2 in Hid'. lia.
      + exact (log_name_not_model _ _ Ha). }
  assert (Hrec : Forall (fun r => exists id n a, r = log_record id n a) records).
  { apply Forall_app. split; [exact Hrec2 | now apply Forall_drop]. }
  destruct (aggregate_known_logs w2 ids records Hdir Hnd Hknown Hg Hrec)
    as (df & rows & Hagg & Hrows & Hperm & Hlen).
  exists df, rows. split; [exact Hagg|]. split; [exact Hrows|]. split; [exact Hperm|].
  rewrite Hlen. unfold records. rewrite length_app, length_drop.
  fold N1 N2 in Hlen1, Hlen2. lia.
Qed.


End TableOfRuns.

(** ** The further properties on the small instance *)

Section MoreToyFacts.
Local Existing Instances Toy.float Toy.sklearn Toy.os Toy.seaborn.

Lemma failed_run_raised :
  run_all [10; 0; 3] Toy.world1 = (Raise ValueError, Toy.failed_run.2).
Proof. vm_compute. reflexivity. Qed.

Lemma whole_returned : main [10; 5; 3] Toy.world0 = (Ok tt, Toy.whole.2).
Proof. vm_compute. reflexivity. Qed.

Lemma second_table_of_second_run :
  aggregate Toy.second_run.2 = (Ok (Toy.value [] Toy.second_table), Toy.second_run.2).
Proof. vm_compute. reflexivity. Qed.

Lemma nothing_is_clean : clean (files Toy.world0).
Proof. intros name [x Hx]. simpl in Hx. rewrite lookup_empty in Hx. discriminate Hx. Qed.

Lemma runner_needs_directory_witness :
  dir_exists Toy.world0 = false
  /\ exists a,
       score true (map fst [(tt, true)]) (map snd [(tt, true)]) = Ok a
       /\ run_experiment 10 1 Toy.world0
          = (Raise (FileNotFoundError (log_path 1)),
             World 2%nat false (files Toy.world0)
                   (stdout Toy.world0 ++ [report_line 1 10 a]) (figures Toy.world0)).
Proof.
  split; [reflexivity|].
  refine (runner_needs_directory 10 1 Toy.world0
            [(tt, true); (tt, true); (tt, false); (tt, true); (tt, true)]
            [(tt, true); (tt, false); (tt, true); (tt, true)] [(tt, true)]
            true 1%nat 2%nat eq_refl eq_refl _ eq_refl eq_refl).
  discriminate.
Defined.



Lemma complete_run_artifacts_witness :
  run_all [10; 5; 3] Toy.world1 = (Ok (Toy.value [] Toy.first_run), Toy.first_run.2)
  /\ read_log (files Toy.first_run.2) summary_name = Ok (JArr (Toy.value [] Toy.first_run)).
Proof.
  split; [exact first_run_returned|].
  exact (proj2 (complete_run_artifacts (Hrepr := toy_float_repr) [10; 5; 3] Toy.world1
                  Toy.first_run.2 (Toy.value [] Toy.first_run) first_run_returned)).
Defined.

Lemma complete_run_directory_witness :
  run_all [10; 5; 3] Toy.world1 = (Ok (Toy.value [] Toy.first_run), Toy.first_run.2)
  /\ files Toy.world1 = ∅
  /\ size (dom (files Toy.first_run.2)) = (2 * length [10; 5; 3] + 1)%nat.
Proof.
  split; [exact first_run_returned|]. split; [reflexivity|].
  exact (proj2 (complete_run_directory [10; 5; 3] Toy.world1 Toy.first_run.2
                  (Toy.value [] Toy.first_run) first_run_returned) eq_refl).
Defined.

Lemma rerun_adds_no_entry_witness :
  run_all [10; 5; 3] Toy.world1 = (Ok (Toy.value [] Toy.first_run), Toy.first_run.2)
  /\ run_all [4] Toy.first_run.2 = (Ok (Toy.value [] Toy.second_run), Toy.second_run.2)
  /\ (length [4] <= length [10; 5; 3])%nat
  /\ dom (files Toy.second_run.2) = dom (files Toy.first_run.2).
Proof.
  assert (Hle : (length [4] <= length [10; 5; 3])%nat) by (simpl; lia).
  split; [exact first_run_returned|]. split; [exact second_run_returned|].
  split; [exact Hle|].
  exact (rerun_adds_no_entry [10; 5; 3] [4] Toy.world1 Toy.first_run.2 Toy.second_run.2
           (Toy.value [] Toy.first_run) (Toy.value [] Toy.second_run)
           first_run_returned second_run_returned Hle).
Defined.

Lemma table_after_two_runs_witness :
  clean (files Toy.world1)
  /\ exists df rows,
       aggregate Toy.second_run.2 = (Ok df, Toy.second_run.2)
       /\ table_rows (Toy.value [] Toy.second_run
                      ++ drop (length [4]) (Toy.value [] Toy.first_run)) = Ok rows
       /\ df ≡ₚ rows
       /\ length df = Nat.max (length [10; 5; 3]) (length [4]).
Proof.
  split; [exact empty_is_clean|].
  exact (table_after_two_runs (Hrepr := toy_float_repr) (Hlisting := toy_listing)
           [10; 5; 3] [4] Toy.world1 Toy.first_run.2 Toy.second_run.2
           (Toy.value [] Toy.first_run) (Toy.value [] Toy.second_run)
           empty_is_clean first_run_returned second_run_returned).
Defined.


End MoreToyFacts.
